(** * Regional prompts: layer store, colour cycler, undo grouping and graph splicer

    Shallow embedding of
    - [regionalPromptsSlice.ts] (the layer store, [LayerColors] and the
      redux-undo configuration), and
    - [addRegionalPromptsToGraph.ts] (the graph splicer).

    Conventions of the embedding:
    - a JS [number] is a rational [Q]; [===] on numbers is [Qeq_bool].
      Nothing below depends on rounding;
    - a JS array is a [list]; [arr.find(cb)] followed by a mutation of the
      element found (an immer draft) is [findIndex] followed by a list
      insert at that index;
    - [string | null] is [option string];
    - a JS object used as a dictionary is a [gmap] with string keys. *)

From Stdlib Require Import QArith.
From stdpp Require Import gmap strings list fin_maps.

Local Open Scope string_scope.
Local Open Scope list_scope.
Local Open Scope nat_scope.

Definition number := Q.
Bind Scope Q_scope with number.

(** ** Array helpers of the JS runtime *)

Section ArrayPrims.
Context {A : Type}.

(** [arr.findIndex(cb)]; [None] stands for [-1]. *)
Fixpoint findIndex (cb : A → bool) (arr : list A) : option nat :=
  match arr with
  | [] => None
  | x :: rest => if cb x then Some 0 else S <$> findIndex cb rest
  end.

(** [arr.findLast(cb)], as the index of the element found. *)
Definition findLastIndex (cb : A → bool) (arr : list A) : option nat :=
  (λ i, length arr - 1 - i) <$> findIndex cb (reverse arr).

(** [arr.splice(i, 1)]: the array without its element at [i]. *)
Definition splice1 (i : nat) (arr : list A) : list A :=
  take i arr ++ drop (S i) arr.
End ArrayPrims.

(** ** common/util/arrayUtils *)

Module ArrayUtils.
Section Moves.
Context {A : Type}.

(** Modelled from the spec: [common/util/arrayUtils.ts] is not among the
    sources. The destructuring swap of two array slots that the two
    adjacent moves need. *)
Definition swap (i j : nat) (arr : list A) : list A :=
  match arr !! i, arr !! j with
  | Some x, Some y => <[j:=x]> (<[i:=y]> arr)
  | _, _ => arr
  end.

(** Modelled from the spec: [moveForward] of the missing
    [common/util/arrayUtils.ts]. Spec 4.1: forward and backward "swap
    with the adjacent element in the corresponding direction"; "moving a
    nonexistent id is a no-op". The element moved is the first one the
    callback accepts; forward is towards the end of the array. *)
Definition moveForward (arr : list A) (cb : A → bool) : list A :=
  match findIndex cb arr with
  | Some index =>
      if bool_decide (index < length arr - 1) then swap index (index + 1) arr
      else arr
  | None => arr
  end.

(** Modelled from the spec: [moveBackward] of the missing
    [common/util/arrayUtils.ts], the mirror image of [moveForward]. *)
Definition moveBackward (arr : list A) (cb : A → bool) : list A :=
  match findIndex cb arr with
  | Some index =>
      if bool_decide (0 < index) then swap index (index - 1) arr else arr
  | None => arr
  end.

(** Modelled from the spec: [moveToFront] of the missing
    [common/util/arrayUtils.ts]. Spec 4.1 and 3: a sequence move of the
    layer to the front of the underlying sequence, the other elements
    keeping their order; a no-op when no element matches. *)
Definition moveToFront (arr : list A) (cb : A → bool) : list A :=
  match findIndex cb arr with
  | Some index =>
      if bool_decide (0 < index) then
        match arr !! index with
        | Some item => item :: splice1 index arr
        | None => arr
        end
      else arr
  | None => arr
  end.

(** Modelled from the spec: [moveToBack] of the missing
    [common/util/arrayUtils.ts]. Spec 4.1 and 3: a sequence move of the
    layer to the back of the underlying sequence, the other elements
    keeping their order; a no-op when no element matches. *)
Definition moveToBack (arr : list A) (cb : A → bool) : list A :=
  match findIndex cb arr with
  | Some index =>
      if bool_decide (index < length arr - 1) then
        match arr !! index with
        | Some item => splice1 index arr ++ [item]
        | None => arr
        end
      else arr
  | None => arr
  end.
End Moves.
End ArrayUtils.

(** ** Data model of the layer store *)

Inductive DrawingTool := brush | eraser.

Record VectorMaskLine := mkLine {
  line_id : string;
  line_tool : DrawingTool;
  line_strokeWidth : number;
  line_points : list number;
}.

Record VectorMaskRect := mkRect {
  rect_id : string;
  rect_x : number;
  rect_y : number;
  rect_width : number;
  rect_height : number;
}.

(** [VectorMaskLine | VectorMaskRect], discriminated by [kind]. *)
Inductive MaskObject :=
  | vector_mask_line (l : VectorMaskLine)
  | vector_mask_rect (r : VectorMaskRect).

Record TextPrompt := mkTextPrompt {
  positive : string;
  negative : string;
}.

(** [ImagePrompt] has no field yet. *)
Definition ImagePrompt := unit.

Record IRect := mkIRect {
  irect_x : number;
  irect_y : number;
  irect_width : number;
  irect_height : number;
}.

Record RgbaColor := mkRgba {
  rgba_r : number;
  rgba_g : number;
  rgba_b : number;
  rgba_a : number;
}.

(** [ParameterAutoNegative] *)
Inductive ParameterAutoNegative := off | invert.

Record Layer := mkLayer {
  layer_id : string;
  layer_kind : string;
  layer_x : number;
  layer_y : number;
  layer_bbox : option IRect;
  layer_bboxNeedsUpdate : bool;
  layer_isVisible : bool;
  layer_textPrompt : option TextPrompt;
  layer_imagePrompts : list ImagePrompt;
  layer_previewColor : RgbaColor;
  layer_autoNegative : ParameterAutoNegative;
  layer_needsPixelBbox : bool;
  layer_objects : list MaskObject;
}.

Record RegionalPromptsState := mkState {
  selectedLayerId : option string;
  layers : list Layer;
  brushSize : number;
  brushColor : RgbaColor;
  globalMaskLayerOpacity : number;
  isEnabled : bool;
}.

Definition initialRegionalPromptsState : RegionalPromptsState :=
  {| selectedLayerId := None;
     brushSize := 100%Q;
     brushColor := mkRgba 255 0 0 1;
     layers := [];
     globalMaskLayerOpacity := (1 # 2)%Q;
     isEnabled := false |}.

Definition isLine (obj : MaskObject) : bool :=
  match obj with vector_mask_line _ => true | vector_mask_rect _ => false end.

Definition VECTOR_MASK_LAYER_NAME : string := "vector_mask_layer".

Definition isVectorMaskLayer (layer : Layer) : bool :=
  String.eqb (layer_kind layer) "vector_mask_layer".

Definition getVectorMaskLayerId (layerId : string) : string :=
  VECTOR_MASK_LAYER_NAME +:+ "_" +:+ layerId.
Definition getVectorMaskLayerLineId (layerId lineId : string) : string :=
  layerId +:+ ".line_" +:+ lineId.
Definition getVectorMaskLayerRectId (layerId lineId : string) : string :=
  layerId +:+ ".rect_" +:+ lineId.

(** ** LayerColors *)

Module LayerColors.
Definition COLORS : list RgbaColor :=
  [ mkRgba 123 159 237 1;
    mkRgba 106 222 106 1;
    mkRgba 250 225 80 1;
    mkRgba 233 137 81 1;
    mkRgba 229 96 96 1;
    mkRgba 226 122 210 1;
    mkRgba 167 116 234 1 ].

(** The initial value of the static field [i]. *)
Definition i0 : nat := length COLORS - 1.

(** lodash [isEqual] on two colours. *)
Definition isEqual (c d : RgbaColor) : bool :=
  Qeq_bool (rgba_r c) (rgba_r d) && Qeq_bool (rgba_g c) (rgba_g d)
  && Qeq_bool (rgba_b c) (rgba_b d) && Qeq_bool (rgba_a c) (rgba_a d).

(** [{ ...currentColor, a: 1 }] *)
Definition with_a1 (c : RgbaColor) : RgbaColor :=
  mkRgba (rgba_r c) (rgba_g c) (rgba_b c) 1.

(** [next(currentColor?)] on the static index [i]: the new index and the
    colour returned, [None] when [assert(color)] throws. *)
Definition next (i : nat) (currentColor : option RgbaColor)
    : nat * option RgbaColor :=
  let i1 :=
    match currentColor with
    | Some c =>
        match findIndex (λ c', isEqual c' (with_a1 c)) COLORS with
        | Some j => j
        | None => i
        end
    | None => i
    end in
  let i2 := (i1 + 1) `mod` length COLORS in
  (i2, COLORS !! i2).

(** [n] successive calls of [next()] without argument. *)
Fixpoint next_n (n : nat) (i : nat) : nat * list (option RgbaColor) :=
  match n with
  | 0 => (i, [])
  | S n' =>
      let '(i', c) := next i None in
      let '(i'', cs) := next_n n' i' in
      (i'', c :: cs)
  end.
End LayerColors.

(** ** regionalPromptsSlice: reducers *)

Definition set_layer_objects (objs : list MaskObject) (l : Layer) : Layer :=
  mkLayer (layer_id l) (layer_kind l) (layer_x l) (layer_y l) (layer_bbox l)
    (layer_bboxNeedsUpdate l) (layer_isVisible l) (layer_textPrompt l)
    (layer_imagePrompts l) (layer_previewColor l) (layer_autoNegative l)
    (layer_needsPixelBbox l) objs.
Definition set_layer_xy (x y : number) (l : Layer) : Layer :=
  mkLayer (layer_id l) (layer_kind l) x y (layer_bbox l)
    (layer_bboxNeedsUpdate l) (layer_isVisible l) (layer_textPrompt l)
    (layer_imagePrompts l) (layer_previewColor l) (layer_autoNegative l)
    (layer_needsPixelBbox l) (layer_objects l).
Definition set_layer_bbox (b : option IRect) (l : Layer) : Layer :=
  mkLayer (layer_id l) (layer_kind l) (layer_x l) (layer_y l) b
    (layer_bboxNeedsUpdate l) (layer_isVisible l) (layer_textPrompt l)
    (layer_imagePrompts l) (layer_previewColor l) (layer_autoNegative l)
    (layer_needsPixelBbox l) (layer_objects l).
Definition set_layer_bboxNeedsUpdate (b : bool) (l : Layer) : Layer :=
  mkLayer (layer_id l) (layer_kind l) (layer_x l) (layer_y l) (layer_bbox l)
    b (layer_isVisible l) (layer_textPrompt l)
    (layer_imagePrompts l) (layer_previewColor l) (layer_autoNegative l)
    (layer_needsPixelBbox l) (layer_objects l).
Definition set_layer_isVisible (b : bool) (l : Layer) : Layer :=
  mkLayer (layer_id l) (layer_kind l) (layer_x l) (layer_y l) (layer_bbox l)
    (layer_bboxNeedsUpdate l) b (layer_textPrompt l)
    (layer_imagePrompts l) (layer_previewColor l) (layer_autoNegative l)
    (layer_needsPixelBbox l) (layer_objects l).
Definition set_layer_textPrompt (t : option TextPrompt) (l : Layer) : Layer :=
  mkLayer (layer_id l) (layer_kind l) (layer_x l) (layer_y l) (layer_bbox l)
    (layer_bboxNeedsUpdate l) (layer_isVisible l) t
    (layer_imagePrompts l) (layer_previewColor l) (layer_autoNegative l)
    (layer_needsPixelBbox l) (layer_objects l).
Definition set_layer_previewColor (c : RgbaColor) (l : Layer) : Layer :=
  mkLayer (layer_id l) (layer_kind l) (layer_x l) (layer_y l) (layer_bbox l)
    (layer_bboxNeedsUpdate l) (layer_isVisible l) (layer_textPrompt l)
    (layer_imagePrompts l) c (layer_autoNegative l)
    (layer_needsPixelBbox l) (layer_objects l).
Definition set_layer_autoNegative (a : ParameterAutoNegative) (l : Layer) : Layer :=
  mkLayer (layer_id l) (layer_kind l) (layer_x l) (layer_y l) (layer_bbox l)
    (layer_bboxNeedsUpdate l) (layer_isVisible l) (layer_textPrompt l)
    (layer_imagePrompts l) (layer_previewColor l) a
    (layer_needsPixelBbox l) (layer_objects l).
Definition set_layer_needsPixelBbox (b : bool) (l : Layer) : Layer :=
  mkLayer (layer_id l) (layer_kind l) (layer_x l) (layer_y l) (layer_bbox l)
    (layer_bboxNeedsUpdate l) (layer_isVisible l) (layer_textPrompt l)
    (layer_imagePrompts l) (layer_previewColor l) (layer_autoNegative l)
    b (layer_objects l).

Definition set_layers (ls : list Layer) (s : RegionalPromptsState) : RegionalPromptsState :=
  mkState (selectedLayerId s) ls (brushSize s) (brushColor s)
    (globalMaskLayerOpacity s) (isEnabled s).
Definition set_selectedLayerId (i : option string) (s : RegionalPromptsState)
    : RegionalPromptsState :=
  mkState i (layers s) (brushSize s) (brushColor s)
    (globalMaskLayerOpacity s) (isEnabled s).

(** The callback [(l) => l.id === layerId]. *)
Definition has_id (layerId : string) (l : Layer) : bool :=
  String.eqb (layer_id l) layerId.

(** [const layer = state.layers.find((l) => l.id === layerId); if (layer) { ... }]
    where the body mutates the draft [layer] in place. *)
Definition with_layer (layerId : string) (body : Layer → Layer)
    (s : RegionalPromptsState) : RegionalPromptsState :=
  match findIndex (has_id layerId) (layers s) with
  | Some i =>
      match layers s !! i with
      | Some layer => set_layers (<[i:=body layer]> (layers s)) s
      | None => s
      end
  | None => s
  end.

(** The reducer of [layerAdded] also advances the static [LayerColors.i];
    it works on the pair of the slice state and that index. *)
Definition layerAdded (kind uuid : string) (s : RegionalPromptsState) (i : nat)
    : RegionalPromptsState * nat :=
  if String.eqb kind "vector_mask_layer" then
    let lastColor := layer_previewColor <$> (layers s !! (length (layers s) - 1)) in
    match LayerColors.next i lastColor with
    | (i', Some color) =>
        let layer :=
          {| layer_id := getVectorMaskLayerId uuid;
             layer_kind := kind;
             layer_isVisible := true;
             layer_bbox := None;
             layer_bboxNeedsUpdate := false;
             layer_objects := [];
             layer_previewColor := color;
             layer_x := 0;
             layer_y := 0;
             layer_autoNegative := off;
             layer_needsPixelBbox := false;
             layer_textPrompt := Some (mkTextPrompt "" "");
             layer_imagePrompts := [] |} in
        (set_selectedLayerId (Some (layer_id layer))
           (set_layers (layers s ++ [layer]) s), i')
    | (i', None) => (s, i') (* [assert(color)] throws: the draft is dropped *)
    end
  else (s, i).

Definition layerSelected (layerId : string) (s : RegionalPromptsState) :=
  match findIndex (has_id layerId) (layers s) with
  | Some i =>
      match layers s !! i with
      | Some layer => set_selectedLayerId (Some (layer_id layer)) s
      | None => s
      end
  | None => s
  end.

Definition layerVisibilityToggled (layerId : string) :=
  with_layer layerId (λ layer, set_layer_isVisible (negb (layer_isVisible layer)) layer).

Definition layerTranslated (layerId : string) (x y : number) :=
  with_layer layerId (set_layer_xy x y).

Definition layerBboxChanged (layerId : string) (bbox : option IRect) :=
  with_layer layerId (λ layer,
    set_layer_bboxNeedsUpdate false (set_layer_bbox bbox layer)).

Definition layerReset (layerId : string) :=
  with_layer layerId (λ layer,
    set_layer_bboxNeedsUpdate false
      (set_layer_needsPixelBbox false
         (set_layer_isVisible true
            (set_layer_bbox None (set_layer_objects [] layer))))).

Definition layerDeleted (layerId : string) (s : RegionalPromptsState) :=
  let s1 := set_layers (filter (λ l, layer_id l ≠ layerId) (layers s)) s in
  set_selectedLayerId (layer_id <$> (layers s1 !! 0)) s1.

Definition layerMovedForward (layerId : string) (s : RegionalPromptsState) :=
  set_layers (ArrayUtils.moveForward (layers s) (has_id layerId)) s.

(** "Because the layers are in reverse order, moving to the front is
    equivalent to moving to the back". *)
Definition layerMovedToFront (layerId : string) (s : RegionalPromptsState) :=
  set_layers (ArrayUtils.moveToBack (layers s) (has_id layerId)) s.

Definition layerMovedBackward (layerId : string) (s : RegionalPromptsState) :=
  set_layers (ArrayUtils.moveBackward (layers s) (has_id layerId)) s.

Definition layerMovedToBack (layerId : string) (s : RegionalPromptsState) :=
  set_layers (ArrayUtils.moveToFront (layers s) (has_id layerId)) s.

Definition allLayersDeleted (s : RegionalPromptsState) :=
  set_selectedLayerId None (set_layers [] s).

Definition maskLayerPositivePromptChanged (layerId prompt : string) :=
  with_layer layerId (λ layer,
    match layer_textPrompt layer with
    | Some t => set_layer_textPrompt (Some (mkTextPrompt prompt (negative t))) layer
    | None => layer
    end).

Definition maskLayerNegativePromptChanged (layerId prompt : string) :=
  with_layer layerId (λ layer,
    match layer_textPrompt layer with
    | Some t => set_layer_textPrompt (Some (mkTextPrompt (positive t) prompt)) layer
    | None => layer
    end).

Definition maskLayerPreviewColorChanged (layerId : string) (color : RgbaColor) :=
  with_layer layerId (set_layer_previewColor color).

Definition maskLayerLineAdded (layerId : string) (p0 p1 p2 p3 : number)
    (tool : DrawingTool) (uuid : string) (s : RegionalPromptsState) :=
  with_layer layerId (λ layer,
    let lineId := getVectorMaskLayerLineId (layer_id layer) uuid in
    let line :=
      {| line_tool := tool;
         line_id := lineId;
         line_points := [ (p0 - layer_x layer)%Q; (p1 - layer_y layer)%Q;
                          (p2 - layer_x layer)%Q; (p3 - layer_y layer)%Q ];
         line_strokeWidth := brushSize s |} in
    let layer1 := set_layer_objects (layer_objects layer ++ [vector_mask_line line]) layer in
    let layer2 := set_layer_bboxNeedsUpdate true layer1 in
    if negb (layer_needsPixelBbox layer2)
       && match tool with eraser => true | brush => false end
    then set_layer_needsPixelBbox true layer2
    else layer2) s.

Definition maskLayerPointsAdded (layerId : string) (px py : number) :=
  with_layer layerId (λ layer,
    match findLastIndex isLine (layer_objects layer) with
    | Some j =>
        match layer_objects layer !! j with
        | Some (vector_mask_line lastLine) =>
            let lastLine' :=
              mkLine (line_id lastLine) (line_tool lastLine) (line_strokeWidth lastLine)
                (line_points lastLine ++ [ (px - layer_x layer)%Q; (py - layer_y layer)%Q ]) in
            set_layer_bboxNeedsUpdate true
              (set_layer_objects (<[j:=vector_mask_line lastLine']> (layer_objects layer)) layer)
        | _ => layer
        end
    | None => layer
    end).

Definition maskLayerRectAdded (layerId : string) (rect : IRect) (uuid : string)
    (s : RegionalPromptsState) :=
  if Qeq_bool (irect_height rect) 0 || Qeq_bool (irect_width rect) 0 then s
  else
    with_layer layerId (λ layer,
      let id := getVectorMaskLayerRectId (layer_id layer) uuid in
      let r :=
        {| rect_id := id;
           rect_x := (irect_x rect - layer_x layer)%Q;
           rect_y := (irect_y rect - layer_y layer)%Q;
           rect_width := irect_width rect;
           rect_height := irect_height rect |} in
      set_layer_bboxNeedsUpdate true
        (set_layer_objects (layer_objects layer ++ [vector_mask_rect r]) layer)) s.

Definition maskLayerAutoNegativeChanged (layerId : string)
    (autoNegative : ParameterAutoNegative) :=
  with_layer layerId (set_layer_autoNegative autoNegative).

Definition brushSizeChanged (n : number) (s : RegionalPromptsState) :=
  mkState (selectedLayerId s) (layers s) n (brushColor s)
    (globalMaskLayerOpacity s) (isEnabled s).

Definition globalMaskLayerOpacityChanged (n : number) (s : RegionalPromptsState) :=
  mkState (selectedLayerId s)
    ((λ layer,
        let c := layer_previewColor layer in
        set_layer_previewColor (mkRgba (rgba_r c) (rgba_g c) (rgba_b c) n) layer)
       <$> layers s)
    (brushSize s) (brushColor s) n (isEnabled s).

Definition isEnabledChanged (b : bool) (s : RegionalPromptsState) :=
  mkState (selectedLayerId s) (layers s) (brushSize s) (brushColor s)
    (globalMaskLayerOpacity s) b.

(** The slice's own [undo] and [redo] reducers only invalidate the bboxes. *)
Definition undo (s : RegionalPromptsState) :=
  set_layers (set_layer_bboxNeedsUpdate true <$> layers s) s.
Definition redo (s : RegionalPromptsState) :=
  set_layers (set_layer_bboxNeedsUpdate true <$> layers s) s.

(** ** Actions and dispatch *)

Module Act.
Inductive t :=
  | layerAdded (kind uuid : string)
  | layerSelected (layerId : string)
  | layerVisibilityToggled (layerId : string)
  | layerTranslated (layerId : string) (x y : number)
  | layerBboxChanged (layerId : string) (bbox : option IRect)
  | layerReset (layerId : string)
  | layerDeleted (layerId : string)
  | layerMovedForward (layerId : string)
  | layerMovedToFront (layerId : string)
  | layerMovedBackward (layerId : string)
  | layerMovedToBack (layerId : string)
  | allLayersDeleted
  | maskLayerPositivePromptChanged (layerId prompt : string)
  | maskLayerNegativePromptChanged (layerId prompt : string)
  | maskLayerPreviewColorChanged (layerId : string) (color : RgbaColor)
  | maskLayerLineAdded (layerId : string) (p0 p1 p2 p3 : number)
      (tool : DrawingTool) (uuid : string)
  | maskLayerPointsAdded (layerId : string) (px py : number)
  | maskLayerRectAdded (layerId : string) (rect : IRect) (uuid : string)
  | maskLayerAutoNegativeChanged (layerId : string)
      (autoNegative : ParameterAutoNegative)
  | brushSizeChanged (n : number)
  | globalMaskLayerOpacityChanged (n : number)
  | isEnabledChanged (b : bool)
  | undo
  | redo
  | foreign (type : string). (* an action of another slice *)
End Act.

(** The store: the slice state together with the static [LayerColors.i]. *)
Record Store := mkStore {
  present : RegionalPromptsState;
  colors_i : nat;
}.

Definition initialStore : Store :=
  mkStore initialRegionalPromptsState LayerColors.i0.

Definition reduce (st : Store) (a : Act.t) : Store :=
  let s := present st in
  let keep s' := mkStore s' (colors_i st) in
  match a with
  | Act.layerAdded kind uuid =>
      let '(s', i') := layerAdded kind uuid s (colors_i st) in mkStore s' i'
  | Act.layerSelected i => keep (layerSelected i s)
  | Act.layerVisibilityToggled i => keep (layerVisibilityToggled i s)
  | Act.layerTranslated i x y => keep (layerTranslated i x y s)
  | Act.layerBboxChanged i b => keep (layerBboxChanged i b s)
  | Act.layerReset i => keep (layerReset i s)
  | Act.layerDeleted i => keep (layerDeleted i s)
  | Act.layerMovedForward i => keep (layerMovedForward i s)
  | Act.layerMovedToFront i => keep (layerMovedToFront i s)
  | Act.layerMovedBackward i => keep (layerMovedBackward i s)
  | Act.layerMovedToBack i => keep (layerMovedToBack i s)
  | Act.allLayersDeleted => keep (allLayersDeleted s)
  | Act.maskLayerPositivePromptChanged i p => keep (maskLayerPositivePromptChanged i p s)
  | Act.maskLayerNegativePromptChanged i p => keep (maskLayerNegativePromptChanged i p s)
  | Act.maskLayerPreviewColorChanged i c => keep (maskLayerPreviewColorChanged i c s)
  | Act.maskLayerLineAdded i p0 p1 p2 p3 tool u =>
      keep (maskLayerLineAdded i p0 p1 p2 p3 tool u s)
  | Act.maskLayerPointsAdded i px py => keep (maskLayerPointsAdded i px py s)
  | Act.maskLayerRectAdded i r u => keep (maskLayerRectAdded i r u s)
  | Act.maskLayerAutoNegativeChanged i an => keep (maskLayerAutoNegativeChanged i an s)
  | Act.brushSizeChanged n => keep (brushSizeChanged n s)
  | Act.globalMaskLayerOpacityChanged n => keep (globalMaskLayerOpacityChanged n s)
  | Act.isEnabledChanged b => keep (isEnabledChanged b s)
  | Act.undo => keep (undo s)
  | Act.redo => keep (redo s)
  | Act.foreign _ => st
  end.

(** The store after a sequence of dispatched actions. *)
Definition run (acts : list Act.t) (st : Store) : Store :=
  foldl reduce st acts.

(** ** Undo grouping ([regionalPromptsUndoableConfig]) *)

Module Undo.
Definition sliceName : string := "regionalPrompts".

(** [action.type]: the slice name, a slash and the reducer's key. *)
Definition type (a : Act.t) : string :=
  match a with
  | Act.layerAdded _ _ => "regionalPrompts/layerAdded"
  | Act.layerSelected _ => "regionalPrompts/layerSelected"
  | Act.layerVisibilityToggled _ => "regionalPrompts/layerVisibilityToggled"
  | Act.layerTranslated _ _ _ => "regionalPrompts/layerTranslated"
  | Act.layerBboxChanged _ _ => "regionalPrompts/layerBboxChanged"
  | Act.layerReset _ => "regionalPrompts/layerReset"
  | Act.layerDeleted _ => "regionalPrompts/layerDeleted"
  | Act.layerMovedForward _ => "regionalPrompts/layerMovedForward"
  | Act.layerMovedToFront _ => "regionalPrompts/layerMovedToFront"
  | Act.layerMovedBackward _ => "regionalPrompts/layerMovedBackward"
  | Act.layerMovedToBack _ => "regionalPrompts/layerMovedToBack"
  | Act.allLayersDeleted => "regionalPrompts/allLayersDeleted"
  | Act.maskLayerPositivePromptChanged _ _ => "regionalPrompts/maskLayerPositivePromptChanged"
  | Act.maskLayerNegativePromptChanged _ _ => "regionalPrompts/maskLayerNegativePromptChanged"
  | Act.maskLayerPreviewColorChanged _ _ => "regionalPrompts/maskLayerPreviewColorChanged"
  | Act.maskLayerLineAdded _ _ _ _ _ _ _ => "regionalPrompts/maskLayerLineAdded"
  | Act.maskLayerPointsAdded _ _ _ => "regionalPrompts/maskLayerPointsAdded"
  | Act.maskLayerRectAdded _ _ _ => "regionalPrompts/maskLayerRectAdded"
  | Act.maskLayerAutoNegativeChanged _ _ => "regionalPrompts/maskLayerAutoNegativeChanged"
  | Act.brushSizeChanged _ => "regionalPrompts/brushSizeChanged"
  | Act.globalMaskLayerOpacityChanged _ => "regionalPrompts/globalMaskLayerOpacityChanged"
  | Act.isEnabledChanged _ => "regionalPrompts/isEnabledChanged"
  | Act.undo => "regionalPrompts/undo"
  | Act.redo => "regionalPrompts/redo"
  | Act.foreign t => t
  end.

(** [isAnyOf(layerTranslated, brushSizeChanged, ...)] *)
Definition undoableGroupByMatcher (a : Act.t) : bool :=
  match a with
  | Act.layerTranslated _ _ _
  | Act.brushSizeChanged _
  | Act.globalMaskLayerOpacityChanged _
  | Act.isEnabledChanged _
  | Act.maskLayerPositivePromptChanged _ _
  | Act.maskLayerNegativePromptChanged _ _
  | Act.maskLayerPreviewColorChanged _ _ => true
  | _ => false
  end.

Definition LINE_1 : string := "LINE_1".
Definition LINE_2 : string := "LINE_2".

Definition is_maskLayerLineAdded (a : Act.t) : bool :=
  match a with Act.maskLayerLineAdded _ _ _ _ _ _ _ => true | _ => false end.
Definition is_maskLayerPointsAdded (a : Act.t) : bool :=
  match a with Act.maskLayerPointsAdded _ _ _ => true | _ => false end.
Definition is_layerBboxChanged (a : Act.t) : bool :=
  match a with Act.layerBboxChanged _ _ => true | _ => false end.

(** [groupBy(action, state, history)]; only [history.group] is read. *)
Definition groupBy (action : Act.t) (history_group : option string) : option string :=
  if is_maskLayerLineAdded action then
    Some (if bool_decide (history_group = Some LINE_1) then LINE_2 else LINE_1)
  else if is_maskLayerPointsAdded action
          && (bool_decide (history_group = Some LINE_1)
              || bool_decide (history_group = Some LINE_2)) then
    history_group
  else if undoableGroupByMatcher action then Some (type action)
  else None.

(** [filter(action, _state, _history)] *)
Definition filter (action : Act.t) : bool :=
  if negb (String.prefix sliceName (type action)) then false
  else if is_layerBboxChanged action then false
  else true.

(** Modelled from the spec: the bookkeeping of the undo library is not in
    the sources. Following 4.1 of the spec, the history keeps a "current
    group" token; an action that passes the filter and whose group is
    non-null and equal to the token is folded into the latest history
    entry, any other one starts a new entry and sets the token to its
    group; a filtered action touches neither. An entry is kept here as
    the list of the actions it covers, oldest entry first. The cap of 64
    entries is left out. *)
Record History := mkHistory {
  entries : list (list Act.t);
  group : option string;
}.

Definition emptyHistory : History := mkHistory [] None.

(** Modelled from the spec: the action joins the latest history entry. *)
Definition fold_into_last (a : Act.t) (es : list (list Act.t)) : list (list Act.t) :=
  match reverse es with
  | last :: before => reverse before ++ [last ++ [a]]
  | [] => [[a]]
  end.

(** Modelled from the spec: what the undo library does with one action
    (4.1, "State machine for undo grouping"). *)
Definition record (h : History) (a : Act.t) : History :=
  if negb (filter a) then h
  else
    let g := groupBy a (group h) in
    match g with
    | Some _ =>
        if bool_decide (g = group h) then mkHistory (fold_into_last a (entries h)) (group h)
        else mkHistory (entries h ++ [[a]]) g
    | None => mkHistory (entries h ++ [[a]]) g
    end.

Definition record_all (acts : list Act.t) (h : History) : History :=
  foldl record h acts.
End Undo.

(** ** The execution graph *)

(** An end point of an edge: [{ node_id, field }]. *)
Record EdgeEnd := mkEnd {
  node_id : string;
  field : string;
}.

Record Edge := mkEdge {
  source : EdgeEnd;
  destination : EdgeEnd;
}.

(** Node descriptors. The splicer builds the first five kinds; the fields
    of the nodes it only passes along are left out. *)
Inductive Invocation :=
  | CollectInvocation (id : string)
  | AlphaMaskToTensorInvocation (id image_name : string)
  | CompelInvocation (id prompt : string)
  | SDXLCompelPromptInvocation (id prompt style : string)
  | InvertTensorMaskInvocation (id : string)
  | AnyInvocation (id type : string).

Definition invocation_id (n : Invocation) : string :=
  match n with
  | CollectInvocation id | AlphaMaskToTensorInvocation id _ | CompelInvocation id _
  | SDXLCompelPromptInvocation id _ _ | InvertTensorMaskInvocation id
  | AnyInvocation id _ => id
  end.

Record NonNullableGraph := mkGraph {
  nodes : gmap string Invocation;
  edges : list Edge;
}.

(** The identifiers of [features/nodes/util/graph/constants], which is not
    among the sources: they are parameters of the splicer. *)
Record GraphConstants := mkConstants {
  NEGATIVE_CONDITIONING : string;
  NEGATIVE_CONDITIONING_COLLECT : string;
  POSITIVE_CONDITIONING : string;
  POSITIVE_CONDITIONING_COLLECT : string;
  PROMPT_REGION_INVERT_TENSOR_MASK_PREFIX : string;
  PROMPT_REGION_MASK_TO_TENSOR_PREFIX : string;
  PROMPT_REGION_NEGATIVE_COND_PREFIX : string;
  PROMPT_REGION_POSITIVE_COND_INVERTED_PREFIX : string;
  PROMPT_REGION_POSITIVE_COND_PREFIX : string;
}.

(** ** The world around the splicer *)

Definition Blob := list Byte.byte.

Record File := mkFile {
  file_blob : Blob;
  file_name : string;
  file_type : string;
}.

(** The two collaborators: the rasteriser of [getLayerBlobs] and the image
    upload endpoint. An upload answers with the [image_name] or fails
    ([None]); the answer may depend on the uploads started before. *)
Record Env := mkEnv {
  getRegionalPromptLayerBlobs : list string → gmap string Blob;
  uploadImage : list File → File → option string;
}.

Record RootState := mkRootState {
  regionalPrompts_present : RegionalPromptsState;
  generation_model_base : option string;
}.

(** What one splicing pass works on: the graph it mutates in place and the
    uploads it has started. *)
Record Splice := mkSplice {
  graph : NonNullableGraph;
  uploads : list File;
}.

Inductive Exn :=
  | AssertionError (msg : string)
  | UploadError (file : File).

Inductive Completion (A : Type) :=
  | Normal (a : A)
  | Throw (e : Exn).
Arguments Normal {A} a.
Arguments Throw {A} e.

(** A computation over [Splice] that may throw; [None] when the fuel of a
    loop over a growing array ran out. A thrown exception keeps the state
    reached: nothing is rolled back. *)
Definition M (A : Type) : Type := Splice → option (Completion A * Splice).

Definition ret {A} (a : A) : M A := λ st, Some (Normal a, st).
Definition throw {A} (e : Exn) : M A := λ st, Some (Throw e, st).
Definition bind {A B} (m : M A) (k : A → M B) : M B := λ st,
  match m st with
  | Some (Normal a, st') => k a st'
  | Some (Throw e, st') => Some (Throw e, st')
  | None => None
  end.

#[global] Instance M_ret : MRet M := @ret.
#[global] Instance M_bind : MBind M := λ A B k m, bind m k.

(** [assert(cond, msg)] of tsafe *)
Definition assert (cond : bool) (msg : string) : M unit :=
  if cond then ret tt else throw (AssertionError msg).

Definition with_node (id : string) (n : Invocation) (st : Splice) : Splice :=
  mkSplice (mkGraph (<[id:=n]> (nodes (graph st))) (edges (graph st))) (uploads st).

Definition with_edges (es : list Edge) (st : Splice) : Splice :=
  mkSplice (mkGraph (nodes (graph st)) es) (uploads st).

Definition get_edges : M (list Edge) := λ st, Some (Normal (edges (graph st)), st).

(** [graph.nodes[id] = node] *)
Definition set_node (id : string) (n : Invocation) : M unit := λ st,
  Some (Normal tt, with_node id n st).

(** [graph.edges = newEdges] *)
Definition set_edges (es : list Edge) : M unit := λ st,
  Some (Normal tt, with_edges es st).

(** [graph.edges.push(e)] *)
Definition push_edge (e : Edge) : M unit := λ st,
  Some (Normal tt, with_edges (edges (graph st) ++ [e]) st).

(** [dispatch(uploadImage.initiate(...))] followed by [await req.unwrap()] *)
Definition upload (env : Env) (file : File) : M string := λ st,
  let st' := mkSplice (graph st) (uploads st ++ [file]) in
  match uploadImage env (uploads st) file with
  | Some image_name => Some (Normal image_name, st')
  | None => Some (Throw (UploadError file), st')
  end.

(** [for (const edge of graph.edges) body(edge)]: the array iterator reads
    the live array, so an edge pushed by the body is visited later in the
    same loop. [i] is the iterator's position. *)
Fixpoint for_of_edges (fuel : nat) (i : nat) (body : Edge → M unit) : M unit :=
  match fuel with
  | 0 => λ _, None
  | S fuel' => λ st,
      match edges (graph st) !! i with
      | None => Some (Normal tt, st)
      | Some edge => bind (body edge) (λ _, for_of_edges fuel' (S i) body) st
      end
  end.

(** [for (const layer of layers) body(layer)] over an array that the body
    leaves alone. *)
Fixpoint for_of {A} (l : list A) (body : A → M unit) : M unit :=
  match l with
  | [] => ret tt
  | x :: rest => bind (body x) (λ _, for_of rest body)
  end.

(** ** addRegionalPromptsToGraph *)

Section Splicer.
Variable K : GraphConstants.
Variable env : Env.

(** A non-empty string is truthy. *)
Definition truthy (s : string) : bool := negb (String.eqb s "").

(** The third filter on the layers: "only layers with prompts". *)
Definition hasPrompt (l : Layer) : bool :=
  let hasTextPrompt :=
    match layer_textPrompt l with
    | Some t => truthy (positive t) || truthy (negative t)
    | None => false
    end in
  let hasAtLeastOneImagePrompt := bool_decide (0 < length (layer_imagePrompts l)) in
  hasTextPrompt || hasAtLeastOneImagePrompt.

Definition filteredLayers (state : RootState) : list Layer :=
  List.filter hasPrompt
    (List.filter layer_isVisible
       (List.filter isVectorMaskLayer (layers (regionalPrompts_present state)))).

(** The first loop: an edge into one of the denoiser's two conditioning
    inputs is re-routed to the matching collector. *)
Definition retarget (collectId : string) (edge : Edge) : Edge :=
  mkEdge (source edge) (mkEnd collectId "item").

Definition reroute (denoiseNodeId : string) (edge : Edge) : Edge :=
  if String.eqb (node_id (destination edge)) denoiseNodeId
     && String.eqb (field (destination edge)) "positive_conditioning" then
    retarget (POSITIVE_CONDITIONING_COLLECT K) edge
  else if String.eqb (node_id (destination edge)) denoiseNodeId
          && String.eqb (field (destination edge)) "negative_conditioning" then
    retarget (NEGATIVE_CONDITIONING_COLLECT K) edge
  else edge.

(** "Copy the connections to the global conditioning node to the
    regional cond": the test and the edge pushed in the three copying
    loops, and their body. *)
Definition feeds (globalId : string) (edge : Edge) : bool :=
  String.eqb (node_id (destination edge)) globalId
  && negb (String.eqb (field (destination edge)) "prompt").

Definition copy_to (regionalId : string) (edge : Edge) : Edge :=
  mkEdge (source edge) (mkEnd regionalId (field (destination edge))).

Definition copy_connection (globalId regionalId : string) (edge : Edge) : M unit :=
  if feeds globalId edge then push_edge (copy_to regionalId edge) else ret tt.

(** [isSDXL ? { type: 'sdxl_compel_prompt', ... } : { type: 'compel', ... }] *)
Definition condNode (isSDXL : bool) (id prompt : string) : Invocation :=
  if isSDXL then SDXLCompelPromptInvocation id prompt prompt
  else CompelInvocation id prompt.

(** The ids of the nodes added for a layer:
    [`${PROMPT_REGION_..._PREFIX}_${layer.id}`]. *)
Definition maskToTensorId (layerId : string) : string :=
  PROMPT_REGION_MASK_TO_TENSOR_PREFIX K +:+ "_" +:+ layerId.
Definition positiveCondId (layerId : string) : string :=
  PROMPT_REGION_POSITIVE_COND_PREFIX K +:+ "_" +:+ layerId.
Definition negativeCondId (layerId : string) : string :=
  PROMPT_REGION_NEGATIVE_COND_PREFIX K +:+ "_" +:+ layerId.
Definition invertTensorMaskId (layerId : string) : string :=
  PROMPT_REGION_INVERT_TENSOR_MASK_PREFIX K +:+ "_" +:+ layerId.
Definition positiveCondInvertedId (layerId : string) : string :=
  PROMPT_REGION_POSITIVE_COND_INVERTED_PREFIX K +:+ "_" +:+ layerId.

(** [new File([blob], `${layer.id}_mask.png`, { type: 'image/png' })] *)
Definition maskFile (layerId : string) (blob : Blob) : File :=
  mkFile blob (layerId +:+ "_mask.png") "image/png".

(** The body of the loop over the layers. *)
Definition addLayer (fuel : nat) (isSDXL : bool) (blobs : gmap string Blob)
    (layer : Layer) : M unit :=
  match blobs !! layer_id layer with
  | None => throw (AssertionError ("Blob for layer " +:+ layer_id layer +:+ " not found"))
  | Some blob =>
      let file := maskFile (layer_id layer) blob in
      image_name ← upload env file;
      let maskToTensorId := maskToTensorId (layer_id layer) in
      set_node maskToTensorId (AlphaMaskToTensorInvocation maskToTensorId image_name);;
      (match positive <$> layer_textPrompt layer with
       | Some prompt =>
           if truthy prompt then
             let id := positiveCondId (layer_id layer) in
             set_node id (condNode isSDXL id prompt);;
             push_edge (mkEdge (mkEnd maskToTensorId "mask") (mkEnd id "mask"));;
             push_edge (mkEdge (mkEnd id "conditioning")
                          (mkEnd (POSITIVE_CONDITIONING_COLLECT K) "item"));;
             for_of_edges fuel 0 (copy_connection (POSITIVE_CONDITIONING K) id)
           else ret tt
       | None => ret tt
       end);;
      (match negative <$> layer_textPrompt layer with
       | Some prompt =>
           if truthy prompt then
             let id := negativeCondId (layer_id layer) in
             set_node id (condNode isSDXL id prompt);;
             push_edge (mkEdge (mkEnd maskToTensorId "mask") (mkEnd id "mask"));;
             push_edge (mkEdge (mkEnd id "conditioning")
                          (mkEnd (NEGATIVE_CONDITIONING_COLLECT K) "item"));;
             for_of_edges fuel 0 (copy_connection (NEGATIVE_CONDITIONING K) id)
           else ret tt
       | None => ret tt
       end);;
      (match layer_autoNegative layer, positive <$> layer_textPrompt layer with
       | invert, Some prompt =>
           if truthy prompt then
             let invertId := invertTensorMaskId (layer_id layer) in
             set_node invertId (InvertTensorMaskInvocation invertId);;
             push_edge (mkEdge (mkEnd maskToTensorId "mask") (mkEnd invertId "mask"));;
             let id := positiveCondInvertedId (layer_id layer) in
             set_node id (condNode isSDXL id prompt);;
             push_edge (mkEdge (mkEnd invertId "mask") (mkEnd id "mask"));;
             push_edge (mkEdge (mkEnd id "conditioning")
                          (mkEnd (NEGATIVE_CONDITIONING_COLLECT K) "item"));;
             for_of_edges fuel 0 (copy_connection (POSITIVE_CONDITIONING K) id)
           else ret tt
       | _, _ => ret tt
       end)
  end.

(** Lines 48 to 104: the two collectors are added, the denoiser's
    conditioning inputs are re-routed to them and they are connected to
    the denoiser. *)
Definition addCollectors (denoiseNodeId : string) : M unit :=
  set_node (POSITIVE_CONDITIONING_COLLECT K)
    (CollectInvocation (POSITIVE_CONDITIONING_COLLECT K));;
  set_node (NEGATIVE_CONDITIONING_COLLECT K)
    (CollectInvocation (NEGATIVE_CONDITIONING_COLLECT K));;
  es ← get_edges;
  set_edges (reroute denoiseNodeId <$> es);;
  push_edge (mkEdge (mkEnd (POSITIVE_CONDITIONING_COLLECT K) "collection")
               (mkEnd denoiseNodeId "positive_conditioning"));;
  push_edge (mkEdge (mkEnd (NEGATIVE_CONDITIONING_COLLECT K) "collection")
               (mkEnd denoiseNodeId "negative_conditioning")).

(** The splicer. [fuel] bounds each of the copying loops. *)
Definition addRegionalPromptsToGraph (fuel : nat) (state : RootState)
    (denoiseNodeId : string) : M unit :=
  if negb (isEnabled (regionalPrompts_present state)) then ret tt
  else
    let isSDXL := bool_decide (generation_model_base state = Some "sdxl") in
    let layers := filteredLayers state in
    let layerIds := layer_id <$> layers in
    let blobs := getRegionalPromptLayerBlobs env layerIds in
    assert (Nat.eqb (size blobs) (length layerIds)) "Mismatch between layer IDs and blobs";;
    addCollectors denoiseNodeId;;
    for_of layers (addLayer fuel isSDXL blobs).
End Splicer.

(** Edges of a graph that end in a given input. *)
Definition ends_in (nid fld : string) (e : Edge) : bool :=
  String.eqb (node_id (destination e)) nid && String.eqb (field (destination e)) fld.

Definition edges_into (g : NonNullableGraph) (nid fld : string) : list Edge :=
  List.filter (ends_in nid fld) (edges g).

(** All the edges that end in a given node, whatever the input. *)
Definition to_node (nid : string) (e : Edge) : bool :=
  String.eqb (node_id (destination e)) nid.

Definition edges_into_node (g : NonNullableGraph) (nid : string) : list Edge :=
  List.filter (to_node nid) (edges g).

(** ** Closed forms of the splicer's steps

    What the steps of the splicer amount to, as plain functions on the
    state; they are proved equal to runs of the code further down. *)

(** The copies one copying loop appends. *)
Definition copies (globalId regionalId : string) (es : list Edge) : list Edge :=
  copy_to regionalId <$> List.filter (feeds globalId) es.

Definition collectorsAdded (K : GraphConstants) (denoiseNodeId : string)
    (st : Splice) : Splice :=
  let PC := POSITIVE_CONDITIONING_COLLECT K in
  let NC := NEGATIVE_CONDITIONING_COLLECT K in
  with_edges
    ((reroute K denoiseNodeId <$> edges (graph st))
       ++ [ mkEdge (mkEnd PC "collection") (mkEnd denoiseNodeId "positive_conditioning");
            mkEdge (mkEnd NC "collection") (mkEnd denoiseNodeId "negative_conditioning") ])
    (with_node NC (CollectInvocation NC) (with_node PC (CollectInvocation PC) st)).

Definition uploaded (file : File) (st : Splice) : Splice :=
  mkSplice (graph st) (uploads st ++ [file]).

(** The mask node and the regional positive conditioning of a layer. *)
Definition positiveAdded (K : GraphConstants) (isSDXL : bool)
    (layerId prompt image_name : string) (st : Splice) : Splice :=
  let m := maskToTensorId K layerId in
  let r := positiveCondId K layerId in
  let es := edges (graph st)
            ++ [ mkEdge (mkEnd m "mask") (mkEnd r "mask");
                 mkEdge (mkEnd r "conditioning")
                   (mkEnd (POSITIVE_CONDITIONING_COLLECT K) "item") ] in
  with_edges (es ++ copies (POSITIVE_CONDITIONING K) r es)
    (with_node r (condNode isSDXL r prompt)
       (with_node m (AlphaMaskToTensorInvocation m image_name) st)).

(** The inverted mask and its conditioning, for auto-negative "invert". *)
Definition invertedAdded (K : GraphConstants) (isSDXL : bool)
    (layerId prompt : string) (st : Splice) : Splice :=
  let m := maskToTensorId K layerId in
  let inv := invertTensorMaskId K layerId in
  let ri := positiveCondInvertedId K layerId in
  let es := edges (graph st)
            ++ [ mkEdge (mkEnd m "mask") (mkEnd inv "mask");
                 mkEdge (mkEnd inv "mask") (mkEnd ri "mask");
                 mkEdge (mkEnd ri "conditioning")
                   (mkEnd (NEGATIVE_CONDITIONING_COLLECT K) "item") ] in
  with_edges (es ++ copies (POSITIVE_CONDITIONING K) ri es)
    (with_node ri (condNode isSDXL ri prompt)
       (with_node inv (InvertTensorMaskInvocation inv) st)).

(** ** Termination of a pass

    [completes m a b]: from any state with at most [a] edges the
    computation [m] ends normally, in a state with at most [b] edges. *)

Definition completes {A : Type} (m : M A) (a b : nat) : Prop :=
  ∀ st, length (edges (graph st)) ≤ a →
    ∃ x st', m st = Some (Normal x, st') ∧ length (edges (graph st')) ≤ b.

(** A bound on the edges after [n] layers, from [a] edges: each layer at
    most doubles the edges three times, after adding up to three each time. *)
Fixpoint edgesAfter (n : nat) (a : nat) : nat :=
  match n with
  | 0 => a
  | S n' => edgesAfter n' (8 * a + 30)
  end.

(** A layer the loop body can process: its blob is there, its upload
    succeeds whatever was uploaded before, and none of its conditioning
    nodes takes the id of a global conditioning node (a copying loop would
    then copy its own copies, without end). *)
Definition processable (K : GraphConstants) (env : Env) (blobs : gmap string Blob)
    (layer : Layer) : Prop :=
  (∃ blob, blobs !! layer_id layer = Some blob
           ∧ ∀ log, is_Some (uploadImage env log (maskFile (layer_id layer) blob)))
  ∧ positiveCondId K (layer_id layer) ≠ POSITIVE_CONDITIONING K
  ∧ negativeCondId K (layer_id layer) ≠ NEGATIVE_CONDITIONING K
  ∧ positiveCondInvertedId K (layer_id layer) ≠ POSITIVE_CONDITIONING K.

(** ** Predicates used in the statements *)

(** The selection is null or the id of a layer of the list. *)
Definition selection_ok (s : RegionalPromptsState) : Prop :=
  match selectedLayerId s with
  | None => True
  | Some i => i ∈ layer_id <$> layers s
  end.

(** ** Concrete inputs

    Small inputs on which the definitions above are evaluated. *)

Module Ex.
Definition mkPlainLayer (id : string) (objs : list MaskObject) : Layer :=
  {| layer_id := id;
     layer_kind := "vector_mask_layer";
     layer_x := 0;
     layer_y := 0;
     layer_bbox := None;
     layer_bboxNeedsUpdate := false;
     layer_isVisible := true;
     layer_textPrompt := Some (mkTextPrompt "" "");
     layer_imagePrompts := [];
     layer_previewColor := mkRgba 123 159 237 1;
     layer_autoNegative := off;
     layer_needsPixelBbox := false;
     layer_objects := objs |}.

Definition stateOf (sel : option string) (ls : list Layer) : RegionalPromptsState :=
  mkState sel ls 100 (mkRgba 255 0 0 1) (1 # 2) true.

(** Three empty layers, the first one selected. *)
Definition abc : RegionalPromptsState :=
  stateOf (Some "a") [mkPlainLayer "a" []; mkPlainLayer "b" []; mkPlainLayer "c" []].

Definition aLine : VectorMaskLine := mkLine "a.line_1" brush 100 [0%Q; 0%Q; 1%Q; 1%Q].
Definition aRect : VectorMaskRect := mkRect "a.rect_1" 0 0 10 10.

(** One layer that holds a line and then a rectangle. *)
Definition lineThenRect : RegionalPromptsState :=
  stateOf (Some "a")
    [mkPlainLayer "a" [vector_mask_line aLine; vector_mask_rect aRect]].

(** One layer that holds rectangles only. *)
Definition rectOnly : RegionalPromptsState :=
  stateOf (Some "a") [mkPlainLayer "a" [vector_mask_rect aRect]].

(** The stroke sequence of the undo-group test. *)
Definition strokes : list Act.t :=
  [ Act.maskLayerLineAdded "a" 0 0 1 1 brush "u1";
    Act.maskLayerPointsAdded "a" 2 2;
    Act.maskLayerPointsAdded "a" 3 3;
    Act.maskLayerLineAdded "a" 5 5 6 6 brush "u2";
    Act.maskLayerPointsAdded "a" 7 7 ].

(** Identifiers for the graph examples. *)
Definition K : GraphConstants :=
  {| NEGATIVE_CONDITIONING := "negative_conditioning";
     NEGATIVE_CONDITIONING_COLLECT := "negative_conditioning_collect";
     POSITIVE_CONDITIONING := "positive_conditioning";
     POSITIVE_CONDITIONING_COLLECT := "positive_conditioning_collect";
     PROMPT_REGION_INVERT_TENSOR_MASK_PREFIX := "prompt_region_invert_tensor_mask";
     PROMPT_REGION_MASK_TO_TENSOR_PREFIX := "prompt_region_mask_to_tensor";
     PROMPT_REGION_NEGATIVE_COND_PREFIX := "prompt_region_negative_cond";
     PROMPT_REGION_POSITIVE_COND_INVERTED_PREFIX := "prompt_region_positive_cond_inverted";
     PROMPT_REGION_POSITIVE_COND_PREFIX := "prompt_region_positive_cond" |}.

Definition denoise : string := "denoise_latents".

(** A base graph: a CLIP node feeds the two global conditioning nodes,
    which feed the denoiser. *)
Definition baseGraph : NonNullableGraph :=
  mkGraph
    (list_to_map
       [ ("clip_skip", AnyInvocation "clip_skip" "clip_skip");
         ("positive_conditioning", CompelInvocation "positive_conditioning" "a dog");
         ("negative_conditioning", CompelInvocation "negative_conditioning" "blurry");
         ("denoise_latents", AnyInvocation "denoise_latents" "denoise_latents") ])
    [ mkEdge (mkEnd "clip_skip" "clip") (mkEnd "positive_conditioning" "clip");
      mkEdge (mkEnd "clip_skip" "clip") (mkEnd "negative_conditioning" "clip");
      mkEdge (mkEnd "positive_conditioning" "conditioning")
        (mkEnd "denoise_latents" "positive_conditioning");
      mkEdge (mkEnd "negative_conditioning" "conditioning")
        (mkEnd "denoise_latents" "negative_conditioning") ].

(** A visible layer with a positive prompt only. *)
Definition promptLayer (id : string) (an : ParameterAutoNegative) : Layer :=
  {| layer_id := id;
     layer_kind := "vector_mask_layer";
     layer_x := 0;
     layer_y := 0;
     layer_bbox := None;
     layer_bboxNeedsUpdate := false;
     layer_isVisible := true;
     layer_textPrompt := Some (mkTextPrompt "a cat" "");
     layer_imagePrompts := [];
     layer_previewColor := mkRgba 123 159 237 1;
     layer_autoNegative := an;
     layer_needsPixelBbox := false;
     layer_objects := [vector_mask_rect aRect] |}.

Definition rootOf (enabled : bool) (ls : list Layer) : RootState :=
  mkRootState (mkState None ls 100 (mkRgba 255 0 0 1) (1 # 2) enabled) None.

(** Every requested layer gets an (empty) blob; every upload succeeds. *)
Definition env : Env :=
  mkEnv (λ ids, list_to_map ((λ i, (i, [])) <$> ids))
        (λ _ f, Some ("img_" +:+ file_name f)).

(** The rasteriser forgets layer ["b"] and returns a stray entry in its
    place, so that the number of blobs is still the one asked for. *)
Definition envMissingB : Env :=
  mkEnv (λ _, list_to_map [("a", []); ("stray", [])])
        (λ _ f, Some ("img_" +:+ file_name f)).



Definition start : Splice := mkSplice baseGraph [].

(** Identifiers chosen so that the regional positive node of the layer
    ["conditioning"] gets the id of the global positive node. *)
Definition Kcolliding : GraphConstants :=
  {| NEGATIVE_CONDITIONING := "negative_conditioning";
     NEGATIVE_CONDITIONING_COLLECT := "negative_conditioning_collect";
     POSITIVE_CONDITIONING := "positive_conditioning";
     POSITIVE_CONDITIONING_COLLECT := "positive_conditioning_collect";
     PROMPT_REGION_INVERT_TENSOR_MASK_PREFIX := "prompt_region_invert_tensor_mask";
     PROMPT_REGION_MASK_TO_TENSOR_PREFIX := "prompt_region_mask_to_tensor";
     PROMPT_REGION_NEGATIVE_COND_PREFIX := "prompt_region_negative_cond";
     PROMPT_REGION_POSITIVE_COND_INVERTED_PREFIX := "prompt_region_positive_cond_inverted";
     PROMPT_REGION_POSITIVE_COND_PREFIX := "positive" |}.

(** Every blob is there, no upload succeeds. *)
Definition envOffline : Env :=
  mkEnv (λ ids, list_to_map ((λ i, (i, [])) <$> ids)) (λ _ _, None).

(** A visible layer with a negative prompt only. *)
Definition negativeLayer (id : string) (an : ParameterAutoNegative) : Layer :=
  set_layer_autoNegative an
    (set_layer_textPrompt (Some (mkTextPrompt "" "blurry")) (mkPlainLayer id [])).
End Ex.

(** ** Further predicates on actions and passes *)

(** The layer id an action looks up before it does anything, for the
    actions whose reducer itself does the lookup ([state.layers.find]) and
    does nothing else when it fails. *)
Definition targetOf (a : Act.t) : option string :=
  match a with
  | Act.layerSelected i | Act.layerVisibilityToggled i | Act.layerTranslated i _ _
  | Act.layerBboxChanged i _ | Act.layerReset i
  | Act.maskLayerPositivePromptChanged i _ | Act.maskLayerNegativePromptChanged i _
  | Act.maskLayerPreviewColorChanged i _
  | Act.maskLayerLineAdded i _ _ _ _ _ _ | Act.maskLayerPointsAdded i _ _
  | Act.maskLayerRectAdded i _ _ | Act.maskLayerAutoNegativeChanged i _ => Some i
  | _ => None
  end.

(** The four moves, whose reducers hand the list to [common/util/arrayUtils]. *)
Definition isMove (a : Act.t) : bool :=
  match a with
  | Act.layerMovedForward _ | Act.layerMovedToFront _
  | Act.layerMovedBackward _ | Act.layerMovedToBack _ => true
  | _ => false
  end.

(** The uuids of the add-layer actions of a sequence, in order. *)
Definition addedUuids (acts : list Act.t) : list string :=
  omap (λ a, match a with Act.layerAdded _ uuid => Some uuid | _ => None end) acts.

(** The three drawing actions. *)
Definition isDrawing (a : Act.t) : bool :=
  match a with
  | Act.maskLayerLineAdded _ _ _ _ _ _ _ | Act.maskLayerPointsAdded _ _ _
  | Act.maskLayerRectAdded _ _ _ => true
  | _ => false
  end.

(** What drawing may do to a layer: objects are added or extended, never
    removed; the pixel-bbox flag is never cleared; a line stays a line and
    keeps the points it has; everything else but the bbox-dirty flag stays. *)
Definition object_extends (o o' : MaskObject) : Prop :=
  match o, o' with
  | vector_mask_line l, vector_mask_line l' =>
      line_id l' = line_id l ∧ line_tool l' = line_tool l
      ∧ line_strokeWidth l' = line_strokeWidth l
      ∧ ∃ more, line_points l' = line_points l ++ more
  | vector_mask_rect r, vector_mask_rect r' => r' = r
  | _, _ => False
  end.

Definition layer_drawn_on (l l' : Layer) : Prop :=
  layer_id l' = layer_id l
  ∧ layer_kind l' = layer_kind l
  ∧ layer_x l' = layer_x l ∧ layer_y l' = layer_y l
  ∧ layer_bbox l' = layer_bbox l
  ∧ layer_isVisible l' = layer_isVisible l
  ∧ layer_textPrompt l' = layer_textPrompt l
  ∧ layer_imagePrompts l' = layer_imagePrompts l
  ∧ layer_previewColor l' = layer_previewColor l
  ∧ layer_autoNegative l' = layer_autoNegative l
  ∧ (layer_needsPixelBbox l = true → layer_needsPixelBbox l' = true)
  ∧ ∃ kept added,
      layer_objects l' = kept ++ added
      ∧ Forall2 object_extends (layer_objects l) kept.

(** [ensures m Q]: whenever the computation [m] ends, normally or by a
    throw, [Q] relates the state before, the completion and the state after. *)
Definition ensures {A : Type} (m : M A) (Q : Splice → Completion A → Splice → Prop) : Prop :=
  ∀ st c st', m st = Some (c, st') → Q st c st'.

(** What a pass may do to the graph and the uploads: no node is removed;
    the edges there keep their place and their source (only a destination
    may be re-routed) and new edges come after them; uploads are only
    appended. *)
Definition grows (st st' : Splice) : Prop :=
  dom (nodes (graph st)) ⊆ dom (nodes (graph st'))
  ∧ (∃ more, source <$> edges (graph st') = (source <$> edges (graph st)) ++ more)
  ∧ (∃ more, uploads st' = uploads st ++ more).

(** The mask files of the layers that have a blob, in order. *)
Definition maskFiles (blobs : gmap string Blob) (ls : list Layer) : list File :=
  omap (λ l, maskFile (layer_id l) <$> blobs !! layer_id l) ls.

(** ** Proof automation *)

(** Case analysis on, and rewriting of, the string comparisons of a goal. *)
Ltac eqb_cases :=
  repeat match goal with
    | |- context [String.eqb ?a ?b] =>
        destruct (String.eqb_spec a b); simpl in *; subst; try done; try congruence
    end.

Ltac eqb_known :=
  repeat match goal with
    | |- context [String.eqb ?a ?a] => rewrite (String.eqb_refl a)
    | |- context [String.eqb ?a ?b] => rewrite (proj2 (String.eqb_neq a b)) by congruence
    end.

Ltac reroute_cases e d :=
  destruct e as [? [?n ?f]];
  unfold reroute, ends_in, feeds, to_node, retarget; simpl in *;
  destruct (String.eqb_spec n d);
  destruct (String.eqb_spec f "positive_conditioning");
  destruct (String.eqb_spec f "negative_conditioning");
  simpl in *; subst; try done; eqb_cases.

Ltac nodup_neq H :=
  repeat match type of H with
    | NoDup (_ :: _) =>
        let Hn := fresh "Hn" in
        apply NoDup_cons in H; destruct H as [Hn H];
        rewrite ?not_elem_of_cons in Hn
    end;
  destruct_and?.

(** * Properties *)

(** ** Array helpers *)

Section FindIndexFacts.
Context {A : Type} (cb : A → bool).

Lemma findIndex_Some arr i :
  findIndex cb arr = Some i →
  ∃ x, arr !! i = Some x ∧ cb x = true ∧ Forall (λ y, cb y = false) (take i arr).
Proof.
  revert i. induction arr as [|a arr IH]; intros i; simpl; [done|].
  destruct (cb a) eqn:Ha.
  - intros [= <-]. exists a. simpl. by split_and!.
  - destruct (findIndex cb arr) as [j|] eqn:Hj; simpl; [|done].
    intros [= <-]. destruct (IH j eq_refl) as (x & ? & ? & ?).
    exists x. simpl. split_and!; auto.
Qed.

Lemma findIndex_None arr :
  findIndex cb arr = None ↔ Forall (λ y, cb y = false) arr.
Proof.
  induction arr as [|a arr IH]; simpl; [by split|].
  destruct (cb a) eqn:Ha.
  - split; [done|]. intros H%Forall_cons_1. destruct H; congruence.
  - destruct (findIndex cb arr); simpl.
    + split; [done|]. intros [_ H]%Forall_cons_1. by apply IH in H.
    + split; [|done]. intros _. constructor; [done|]. by apply IH.
Qed.

Lemma findIndex_middle pre x post :
  Forall (λ y, cb y = false) pre → cb x = true →
  findIndex cb (pre ++ x :: post) = Some (length pre).
Proof.
  intros Hpre Hx. induction Hpre as [|y pre Hy _ IH]; simpl.
  - by rewrite Hx.
  - by rewrite Hy, IH.
Qed.

Lemma findLastIndex_None arr :
  Forall (λ y, cb y = false) arr → findLastIndex cb arr = None.
Proof.
  intros H. unfold findLastIndex.
  assert (findIndex cb (reverse arr) = None) as ->; [|done].
  apply findIndex_None. by apply Forall_reverse.
Qed.
End FindIndexFacts.

(** ** The layer store *)

Lemma set_layers_id s : set_layers (layers s) s = s.
Proof. by destruct s. Qed.

Lemma has_id_true layerId l : has_id layerId l = true ↔ layer_id l = layerId.
Proof. unfold has_id. apply String.eqb_eq. Qed.

Lemma has_id_false layerId l : has_id layerId l = false ↔ layer_id l ≠ layerId.
Proof. unfold has_id. apply String.eqb_neq. Qed.

(** What a delete leaves: the layers with another id, and the first of
    them selected. *)
Lemma layerDeleted_result (layerId : string) (s : RegionalPromptsState) :
  layers (layerDeleted layerId s) = filter (λ l, layer_id l ≠ layerId) (layers s)
  ∧ selectedLayerId (layerDeleted layerId s)
    = layer_id <$> head (filter (λ l, layer_id l ≠ layerId) (layers s)).
Proof. unfold layerDeleted. simpl. by rewrite <- head_lookup. Qed.

(** C9, as the code has it: after a delete the selection is the first
    layer that remains, whichever layer was selected before; it is null
    exactly when no layer remains, and it never is the deleted id. *)
Theorem layerDeleted_selects_first_remaining (layerId : string) (s : RegionalPromptsState) :
  selectedLayerId (layerDeleted layerId s)
    = layer_id <$> head (filter (λ l, layer_id l ≠ layerId) (layers s))
  ∧ layers (layerDeleted layerId s) = filter (λ l, layer_id l ≠ layerId) (layers s)
  ∧ selectedLayerId (layerDeleted layerId s) ≠ Some layerId
  ∧ (selectedLayerId (layerDeleted layerId s) = None
     ↔ layers (layerDeleted layerId s) = []).
Proof.
  destruct (layerDeleted_result layerId s) as [-> ->].
  set (rest := filter _ _).
  assert (Forall (λ l, layer_id l ≠ layerId) rest) as Hrest.
  { apply Forall_forall. intros l Hl. subst rest.
    by apply list_elem_of_filter in Hl as [? _]. }
  split_and!; try done.
  - destruct rest as [|l rest']; simpl; [done|].
    apply Forall_cons_1 in Hrest as [Hl _]. congruence.
  - destruct rest; simpl; split; done.
Qed.

(** C9, counterexample: with layers a, b, c and a selected, deleting a
    leaves b selected, not null. *)
Lemma layerDeleted_selected_not_cleared :
  selectedLayerId Ex.abc = Some "a"
  ∧ selectedLayerId (layerDeleted "a" Ex.abc) = Some "b"
  ∧ selectedLayerId (layerDeleted "a" Ex.abc) ≠ None.
Proof. by vm_compute. Qed.

(** C5, as the code has it: when the targeted layer holds no line at all
    (it is empty or holds rectangles only), appending a point changes
    nothing, in the layer or in the rest of the state. *)
Theorem maskLayerPointsAdded_without_line
    (layerId : string) (px py : number) (s : RegionalPromptsState)
    (i : nat) (layer : Layer) :
  findIndex (has_id layerId) (layers s) = Some i →
  layers s !! i = Some layer →
  Forall (λ o, isLine o = false) (layer_objects layer) →
  maskLayerPointsAdded layerId px py s = s.
Proof.
  intros Hi Hl Hobjs. unfold maskLayerPointsAdded, with_layer.
  rewrite Hi, Hl, (findLastIndex_None _ _ Hobjs).
  rewrite (list_insert_id _ _ _ Hl). apply set_layers_id.
Qed.

(** C5, on a layer that holds one rectangle. *)
Lemma maskLayerPointsAdded_without_line_witness :
  maskLayerPointsAdded "a" 5 6 Ex.rectOnly = Ex.rectOnly.
Proof.
  apply (maskLayerPointsAdded_without_line "a" 5 6 Ex.rectOnly 0
           (Ex.mkPlainLayer "a" [vector_mask_rect Ex.aRect])).
  - reflexivity.
  - reflexivity.
  - repeat constructor.
Defined.

(** C5, counterexample: the layer's last object is a rectangle, an earlier
    one is a line; the point lands on that line and the bbox is marked
    dirty. *)
Lemma maskLayerPointsAdded_rect_last_changes :
  ∃ layer layer',
    layers Ex.lineThenRect !! 0 = Some layer
    ∧ last (layer_objects layer) = Some (vector_mask_rect Ex.aRect)
    ∧ layers (maskLayerPointsAdded "a" 5 6 Ex.lineThenRect) !! 0 = Some layer'
    ∧ layer_bboxNeedsUpdate layer = false
    ∧ layer_bboxNeedsUpdate layer' = true
    ∧ layer' ≠ layer.
Proof.
  eexists _, _. split_and!; [reflexivity..|].
  intros H. apply (f_equal layer_bboxNeedsUpdate) in H. discriminate H.
Qed.

(** ** Moving layers *)

Section MoveFacts.
Context {A : Type} (cb : A → bool).

Lemma splice1_middle (pre : list A) x post :
  splice1 (length pre) (pre ++ x :: post) = pre ++ post.
Proof.
  unfold splice1. induction pre as [|a pre IH]; simpl; [done|by f_equal].
Qed.

Lemma splice1_Permutation (arr : list A) i x :
  arr !! i = Some x → x :: splice1 i arr ≡ₚ arr.
Proof.
  intros H. unfold splice1.
  rewrite Permutation_middle. by rewrite take_drop_middle.
Qed.

Lemma moveForward_Permutation (arr : list A) : ArrayUtils.moveForward arr cb ≡ₚ arr.
Proof.
  unfold ArrayUtils.moveForward, ArrayUtils.swap.
  destruct (findIndex cb arr) as [i|]; [|done].
  case_bool_decide; [|done].
  destruct (arr !! i) eqn:Hi; [|done].
  destruct (arr !! (i + 1)) eqn:Hj; [|done].
  by apply Permutation_insert_swap.
Qed.

Lemma moveBackward_Permutation (arr : list A) : ArrayUtils.moveBackward arr cb ≡ₚ arr.
Proof.
  unfold ArrayUtils.moveBackward, ArrayUtils.swap.
  destruct (findIndex cb arr) as [i|]; [|done].
  case_bool_decide; [|done].
  destruct (arr !! i) eqn:Hi; [|done].
  destruct (arr !! (i - 1)) eqn:Hj; [|done].
  by apply Permutation_insert_swap.
Qed.

Lemma moveToFront_Permutation (arr : list A) : ArrayUtils.moveToFront arr cb ≡ₚ arr.
Proof.
  unfold ArrayUtils.moveToFront.
  destruct (findIndex cb arr) as [i|]; [|done].
  case_bool_decide; [|done].
  destruct (arr !! i) eqn:Hi; [|done].
  by apply splice1_Permutation.
Qed.

Lemma moveToBack_Permutation (arr : list A) : ArrayUtils.moveToBack arr cb ≡ₚ arr.
Proof.
  unfold ArrayUtils.moveToBack.
  destruct (findIndex cb arr) as [i|]; [|done].
  case_bool_decide; [|done].
  destruct (arr !! i) eqn:Hi; [|done].
  rewrite <- Permutation_cons_append. by apply splice1_Permutation.
Qed.

(** The element moved is the first one the callback accepts. *)
Lemma moveToBack_middle (pre : list A) x post :
  Forall (λ y, cb y = false) pre → cb x = true →
  ArrayUtils.moveToBack (pre ++ x :: post) cb = pre ++ post ++ [x].
Proof.
  intros Hpre Hx. unfold ArrayUtils.moveToBack.
  rewrite (findIndex_middle cb pre x post Hpre Hx).
  rewrite list_lookup_middle by done.
  case_bool_decide as Hlt.
  - rewrite splice1_middle. by rewrite <- (assoc_L (++)).
  - rewrite length_app in Hlt. simpl in Hlt.
    destruct post; [done|]. simpl in Hlt. lia.
Qed.

Lemma moveToFront_middle (pre : list A) x post :
  Forall (λ y, cb y = false) pre → cb x = true →
  ArrayUtils.moveToFront (pre ++ x :: post) cb = x :: pre ++ post.
Proof.
  intros Hpre Hx. unfold ArrayUtils.moveToFront.
  rewrite (findIndex_middle cb pre x post Hpre Hx).
  rewrite list_lookup_middle by done.
  case_bool_decide as Hlt.
  - by rewrite splice1_middle.
  - destruct pre; [done|]. simpl in Hlt. lia.
Qed.
End MoveFacts.

Lemma state_eq_layers s ls : set_layers ls s = s ↔ ls = layers s.
Proof.
  destruct s; unfold set_layers; simpl. split; [by intros [= ->]|by intros ->].
Qed.

(** C4, as the moves are specified: for a layer whose id occurs once,
    to-front then to-back leaves it first in the sequence, to-back then
    to-front leaves it last, the other layers keeping their order; the
    original order comes back exactly when the layer already was at that
    end. *)
Theorem layerMoved_front_back (layerId : string) (s : RegionalPromptsState)
    (pre : list Layer) (x : Layer) (post : list Layer) :
  layers s = pre ++ x :: post →
  layer_id x = layerId →
  Forall (λ l, layer_id l ≠ layerId) (pre ++ post) →
  layers (layerMovedToBack layerId (layerMovedToFront layerId s)) = x :: pre ++ post
  ∧ layers (layerMovedToFront layerId (layerMovedToBack layerId s)) = pre ++ post ++ [x]
  ∧ (layerMovedToBack layerId (layerMovedToFront layerId s) = s ↔ pre = [])
  ∧ (layerMovedToFront layerId (layerMovedToBack layerId s) = s ↔ post = []).
Proof.
  intros Hs Hx Hrest.
  assert (has_id layerId x = true) as Hcb by by apply has_id_true.
  assert (Forall (λ y, has_id layerId y = false) (pre ++ post)) as Hno.
  { eapply Forall_impl; [exact Hrest|]. intros l. apply has_id_false. }
  pose proof Hno as [Hpre Hpost]%Forall_app.
  assert (layers (layerMovedToBack layerId (layerMovedToFront layerId s))
          = x :: pre ++ post) as Hfb.
  { unfold layerMovedToBack, layerMovedToFront. simpl. rewrite Hs.
    rewrite (moveToBack_middle _ pre x post Hpre Hcb).
    rewrite (assoc_L (++)).
    rewrite (moveToFront_middle _ (pre ++ post) x [] Hno Hcb).
    by rewrite (right_id_L [] (++)). }
  assert (layers (layerMovedToFront layerId (layerMovedToBack layerId s))
          = pre ++ post ++ [x]) as Hbf.
  { unfold layerMovedToBack, layerMovedToFront. simpl. rewrite Hs.
    rewrite (moveToFront_middle _ pre x post Hpre Hcb).
    change (x :: pre ++ post) with ([] ++ x :: pre ++ post).
    rewrite (moveToBack_middle _ [] x (pre ++ post) (Forall_nil_2 _) Hcb).
    simpl. by rewrite <- (assoc_L (++)). }
  split_and!; [done|done|..].
  - change (layerMovedToBack layerId (layerMovedToFront layerId s))
      with (set_layers (layers (layerMovedToBack layerId (layerMovedToFront layerId s))) s).
    rewrite state_eq_layers, Hfb, Hs. split.
    + destruct pre as [|p pre']; [done|]. simpl. intros [= -> _].
      apply Forall_cons_1 in Hrest as [Hp _]. done.
    + by intros ->.
  - change (layerMovedToFront layerId (layerMovedToBack layerId s))
      with (set_layers (layers (layerMovedToFront layerId (layerMovedToBack layerId s))) s).
    rewrite state_eq_layers, Hbf, Hs. split.
    + intros H%app_inv_head. destruct post as [|p post']; [done|].
      simpl in H. injection H as -> _.
      apply Forall_app in Hrest as [_ [Hp _]%Forall_cons_1]. done.
    + by intros ->.
Qed.

(** C4, on the layers a, b, c and the id of b. *)
Lemma layerMoved_front_back_witness :
  layers (layerMovedToBack "b" (layerMovedToFront "b" Ex.abc))
    = [Ex.mkPlainLayer "b" []; Ex.mkPlainLayer "a" []; Ex.mkPlainLayer "c" []]
  ∧ layers (layerMovedToFront "b" (layerMovedToBack "b" Ex.abc))
    = [Ex.mkPlainLayer "a" []; Ex.mkPlainLayer "c" []; Ex.mkPlainLayer "b" []].
Proof.
  destruct (layerMoved_front_back "b" Ex.abc
              [Ex.mkPlainLayer "a" []] (Ex.mkPlainLayer "b" [])
              [Ex.mkPlainLayer "c" []]) as (H1 & H2 & _).
  - reflexivity.
  - reflexivity.
  - repeat constructor; simpl; discriminate.
  - split; [exact H1|exact H2].
Defined.

(** C4, counterexample: layer b sits between a and c; to-front then
    to-back gives b, a, c and to-back then to-front gives a, c, b. *)
Lemma layerMoved_front_back_not_restored :
  "b" ∈ layer_id <$> layers Ex.abc
  ∧ layer_id <$> layers Ex.abc = ["a"; "b"; "c"]
  ∧ layer_id <$> layers (layerMovedToBack "b" (layerMovedToFront "b" Ex.abc))
    = ["b"; "a"; "c"]
  ∧ layer_id <$> layers (layerMovedToFront "b" (layerMovedToBack "b" Ex.abc))
    = ["a"; "c"; "b"]
  ∧ layers (layerMovedToBack "b" (layerMovedToFront "b" Ex.abc)) ≠ layers Ex.abc
  ∧ layers (layerMovedToFront "b" (layerMovedToBack "b" Ex.abc)) ≠ layers Ex.abc.
Proof.
  split_and!; [by vm_compute; set_solver|reflexivity..| |];
    intros H; apply (f_equal (fmap layer_id)) in H; vm_compute in H; discriminate H.
Qed.

(** ** The selection invariant *)

Lemma selection_ok_Permutation s s' :
  selectedLayerId s' = selectedLayerId s →
  layer_id <$> layers s' ≡ₚ layer_id <$> layers s →
  selection_ok s → selection_ok s'.
Proof.
  unfold selection_ok. intros -> Hp.
  destruct (selectedLayerId s); [|done]. by rewrite Hp.
Qed.

Lemma with_layer_ids layerId body s :
  (∀ l, layer_id (body l) = layer_id l) →
  selectedLayerId (with_layer layerId body s) = selectedLayerId s
  ∧ layer_id <$> layers (with_layer layerId body s) = layer_id <$> layers s.
Proof.
  intros Hb. unfold with_layer.
  destruct (findIndex _ _) as [i|]; [|done].
  destruct (layers s !! i) as [l|] eqn:Hl; [|done]. simpl. split; [done|].
  rewrite list_fmap_insert, Hb. apply list_insert_id.
  by rewrite list_lookup_fmap, Hl.
Qed.

Lemma selection_ok_with_layer layerId body s :
  (∀ l, layer_id (body l) = layer_id l) →
  selection_ok s → selection_ok (with_layer layerId body s).
Proof.
  intros Hb. destruct (with_layer_ids layerId body s Hb) as [Hsel Hids].
  apply selection_ok_Permutation; [done|by rewrite Hids].
Qed.

Lemma selection_ok_set_layers ls s :
  ls ≡ₚ layers s → selection_ok s → selection_ok (set_layers ls s).
Proof.
  intros Hp. apply selection_ok_Permutation; [done|]. simpl. by rewrite Hp.
Qed.

Lemma selection_ok_fmap f s s' :
  (∀ l, layer_id (f l) = layer_id l) →
  selectedLayerId s' = selectedLayerId s →
  layers s' = f <$> layers s →
  selection_ok s → selection_ok s'.
Proof.
  intros Hf Hsel Hl. apply selection_ok_Permutation; [done|]. rewrite Hl.
  rewrite <- list_fmap_compose.
  assert (layer_id ∘ f <$> layers s = layer_id <$> layers s) as ->; [|done].
  apply list_fmap_ext. intros ? l _. apply Hf.
Qed.

Lemma selection_ok_layerAdded kind uuid s i :
  selection_ok s → selection_ok (layerAdded kind uuid s i).1.
Proof.
  intros Hs. unfold layerAdded.
  destruct (String.eqb kind "vector_mask_layer"); [|done].
  destruct (LayerColors.next _ _) as [i' [color|]]; [|done].
  unfold selection_ok. simpl. rewrite fmap_app. set_solver.
Qed.

Lemma selection_ok_layerSelected layerId s :
  selection_ok s → selection_ok (layerSelected layerId s).
Proof.
  intros Hs. unfold layerSelected.
  destruct (findIndex _ _) as [i|]; [|done].
  destruct (layers s !! i) as [l|] eqn:Hl; [|done].
  unfold selection_ok. simpl.
  apply list_elem_of_fmap. exists l. split; [done|].
  by apply list_elem_of_lookup_2 in Hl.
Qed.

Lemma selection_ok_layerDeleted layerId s : selection_ok (layerDeleted layerId s).
Proof.
  unfold selection_ok.
  destruct (layerDeleted_result layerId s) as [-> ->].
  destruct (filter _ _) as [|l rest]; simpl; [done|]. set_solver.
Qed.

(** Every reducer keeps the invariant. *)
Lemma reduce_selection_ok st a :
  selection_ok (present st) → selection_ok (present (reduce st a)).
Proof.
  intros Hs. destruct a; simpl; try done.
  - pose proof (selection_ok_layerAdded kind uuid _ (colors_i st) Hs) as H.
    by destruct (layerAdded _ _ _ _).
  - by apply selection_ok_layerSelected.
  - by apply selection_ok_with_layer.
  - by apply selection_ok_with_layer.
  - by apply selection_ok_with_layer.
  - by apply selection_ok_with_layer.
  - apply selection_ok_layerDeleted.
  - apply selection_ok_set_layers; [apply moveForward_Permutation|done].
  - apply selection_ok_set_layers; [apply moveToBack_Permutation|done].
  - apply selection_ok_set_layers; [apply moveBackward_Permutation|done].
  - apply selection_ok_set_layers; [apply moveToFront_Permutation|done].
  - apply selection_ok_with_layer; [|done].
    intros l. by destruct (layer_textPrompt l).
  - apply selection_ok_with_layer; [|done].
    intros l. by destruct (layer_textPrompt l).
  - by apply selection_ok_with_layer.
  - apply selection_ok_with_layer; [|done].
    intros l. simpl. by destruct (negb _ && _).
  - apply selection_ok_with_layer; [|done].
    intros l. destruct (findLastIndex _ _) as [j|]; [|done].
    by destruct (layer_objects l !! j) as [[]|].
  - unfold maskLayerRectAdded. destruct (_ || _); [done|].
    by apply selection_ok_with_layer.
  - by apply selection_ok_with_layer.
  - eapply (selection_ok_fmap _ (present st)); [|reflexivity|reflexivity|done]. done.
  - eapply (selection_ok_fmap _ (present st)); [|reflexivity|reflexivity|done]. done.
  - eapply (selection_ok_fmap _ (present st)); [|reflexivity|reflexivity|done]. done.
Qed.

Lemma run_selection_ok acts st :
  selection_ok (present st) → selection_ok (present (run acts st)).
Proof.
  revert st. induction acts as [|a acts IH]; intros st Hs; simpl; [done|].
  by apply IH, reduce_selection_ok.
Qed.

(** C3: after any sequence of actions dispatched on the initial state, the
    selection is null or the id of a layer of the list. *)
Theorem selectedLayerId_always_valid (acts : list Act.t) :
  selection_ok (present (run acts initialStore)).
Proof. by apply run_selection_ok. Qed.

(** ** Undo grouping *)

(** C7: the five actions of the undo-group test, whatever their payloads,
    make two history entries, the first with the first three actions and
    the second with the other two; an add-line answers one stroke token
    when the history holds the other one (and the first token otherwise),
    never the token the history holds; an append-point keeps either stroke
    token. *)
Theorem stroke_actions_group_per_stroke
    (la lb lc ld le : string) (a0 a1 a2 a3 d0 d1 d2 d3 : number)
    (ta td : DrawingTool) (ua ud : string) (bx by_ cx cy ex ey : number)
    (g : option string) :
  let add1 := Act.maskLayerLineAdded la a0 a1 a2 a3 ta ua in
  let pt2 := Act.maskLayerPointsAdded lb bx by_ in
  let pt3 := Act.maskLayerPointsAdded lc cx cy in
  let add4 := Act.maskLayerLineAdded ld d0 d1 d2 d3 td ud in
  let pt5 := Act.maskLayerPointsAdded le ex ey in
  Undo.record_all [add1; pt2; pt3; add4; pt5] Undo.emptyHistory
    = Undo.mkHistory [[add1; pt2; pt3]; [add4; pt5]] (Some Undo.LINE_2)
  ∧ Undo.groupBy add1 (Some Undo.LINE_1) = Some Undo.LINE_2
  ∧ Undo.groupBy add1 (Some Undo.LINE_2) = Some Undo.LINE_1
  ∧ Undo.groupBy add1 None = Some Undo.LINE_1
  ∧ Undo.groupBy add1 g ≠ g
  ∧ (Undo.groupBy add1 g = Some Undo.LINE_1 ∨ Undo.groupBy add1 g = Some Undo.LINE_2)
  ∧ Undo.groupBy pt2 (Some Undo.LINE_1) = Some Undo.LINE_1
  ∧ Undo.groupBy pt2 (Some Undo.LINE_2) = Some Undo.LINE_2.
Proof.
  simpl. split_and!; try reflexivity.
  - unfold Undo.groupBy. simpl. case_bool_decide as Hg; [by rewrite Hg|].
    intros Hg'. by rewrite <- Hg' in Hg.
  - unfold Undo.groupBy. simpl. case_bool_decide; [by right|by left].
Qed.

(** ** The colour cycler *)

Lemma LayerColors_next_None i :
  LayerColors.next i None
  = ((i + 1) `mod` 7, LayerColors.COLORS !! ((i + 1) `mod` 7)).
Proof. reflexivity. Qed.

Lemma LayerColors_next_n_S n i :
  LayerColors.next_n (S n) i
  = ((LayerColors.next_n n ((i + 1) `mod` 7)).1,
     LayerColors.COLORS !! ((i + 1) `mod` 7)
       :: (LayerColors.next_n n ((i + 1) `mod` 7)).2).
Proof.
  change (LayerColors.next_n (S n) i)
    with (let '(i', c) := LayerColors.next i None in
          let '(i'', cs) := LayerColors.next_n n i' in (i'', c :: cs)).
  rewrite LayerColors_next_None. by destruct (LayerColors.next_n n _).
Qed.

Lemma Qeq_bool_trans_r (x a b : Q) :
  Qeq_bool a b = true → Qeq_bool x b = Qeq_bool x a.
Proof.
  intros Hab%Qeq_bool_iff.
  destruct (Qeq_bool x a) eqn:Ha, (Qeq_bool x b) eqn:Hb; try done.
  - apply Qeq_bool_iff in Ha. apply Qeq_bool_neq in Hb. destruct Hb.
    by rewrite Ha.
  - apply Qeq_bool_iff in Hb. apply Qeq_bool_neq in Ha. destruct Ha.
    by rewrite Hb, Hab.
Qed.

Lemma LayerColors_isEqual_trans_r x a b :
  LayerColors.isEqual a b = true →
  LayerColors.isEqual x b = LayerColors.isEqual x a.
Proof.
  unfold LayerColors.isEqual.
  intros [[[Hr Hg]%andb_true_iff Hb]%andb_true_iff Ha]%andb_true_iff.
  by rewrite (Qeq_bool_trans_r _ _ _ Hr), (Qeq_bool_trans_r _ _ _ Hg),
    (Qeq_bool_trans_r _ _ _ Hb), (Qeq_bool_trans_r _ _ _ Ha).
Qed.

Lemma findIndex_ext {A} (f g : A → bool) arr :
  (∀ x, f x = g x) → findIndex f arr = findIndex g arr.
Proof.
  intros H. induction arr as [|a arr IH]; simpl; [done|]. by rewrite H, IH.
Qed.

(** Reseeding: a colour that matches palette entry [k] up to alpha makes
    [next] answer the entry after [k], cyclically. *)
Lemma LayerColors_next_reseed i c k color :
  LayerColors.COLORS !! k = Some color →
  LayerColors.isEqual color (LayerColors.with_a1 c) = true →
  LayerColors.next i (Some c)
  = ((k + 1) `mod` 7, LayerColors.COLORS !! ((k + 1) `mod` 7)).
Proof.
  intros Hk Heq. unfold LayerColors.next.
  rewrite (findIndex_ext _ (λ c', LayerColors.isEqual c' color)).
  2:{ intros x. by apply LayerColors_isEqual_trans_r. }
  clear Heq.
  do 7 (destruct k as [|k]; [injection Hk as <-; reflexivity|]).
  discriminate Hk.
Qed.

(** C8: from any index, seven calls of [next()] return the palette rotated
    to start after that index, hence every palette colour exactly once
    (the palette has no repetition), and the next seven calls return the
    same seven colours again; [next(c)] for a [c] that is the third colour
    up to alpha returns the fourth, and for the last colour the first. *)
Theorem LayerColors_cycles_through_palette (i : nat) (c3 c7 : RgbaColor) :
  LayerColors.isEqual (mkRgba 250 225 80 1) (LayerColors.with_a1 c3) = true →
  LayerColors.isEqual (mkRgba 167 116 234 1) (LayerColors.with_a1 c7) = true →
  length LayerColors.COLORS = 7
  ∧ NoDup LayerColors.COLORS
  ∧ (LayerColors.next_n 7 i).2 = Some <$> rotate (i + 1) LayerColors.COLORS
  ∧ (LayerColors.next_n 7 i).2 ≡ₚ Some <$> LayerColors.COLORS
  ∧ (LayerColors.next_n 14 i).2
    = (LayerColors.next_n 7 i).2 ++ (LayerColors.next_n 7 i).2
  ∧ LayerColors.COLORS !! 2 = Some (mkRgba 250 225 80 1)
  ∧ (LayerColors.next i (Some c3)).2 = LayerColors.COLORS !! 3
  ∧ (LayerColors.next i (Some c3)).2 = Some (mkRgba 233 137 81 1)
  ∧ LayerColors.COLORS !! 6 = Some (mkRgba 167 116 234 1)
  ∧ (LayerColors.next i (Some c7)).2 = LayerColors.COLORS !! 0
  ∧ (LayerColors.next i (Some c7)).2 = Some (mkRgba 123 159 237 1).
Proof.
  intros H3 H7.
  assert ((LayerColors.next_n 7 i).2 = Some <$> rotate (i + 1) LayerColors.COLORS) as Hrot.
  { rewrite LayerColors_next_n_S. unfold rotate.
    change (length LayerColors.COLORS) with 7.
    pose proof (Nat.mod_upper_bound (i + 1) 7 ltac:(done)) as Hj.
    revert Hj. generalize ((i + 1) `mod` 7). intros j Hj.
    do 7 (destruct j as [|j]; [reflexivity|]). lia. }
  split_and!.
  - reflexivity.
  - assert (NoDup ((λ c, Qnum (rgba_r c)) <$> LayerColors.COLORS)) as Hr.
    { apply (bool_decide_unpack _). by vm_compute. }
    by apply NoDup_fmap_1 in Hr.
  - done.
  - rewrite Hrot. apply fmap_Permutation. unfold rotate.
    rewrite Permutation_app_comm. by rewrite take_drop.
  - rewrite (LayerColors_next_n_S 13), (LayerColors_next_n_S 6).
    pose proof (Nat.mod_upper_bound (i + 1) 7 ltac:(done)) as Hj.
    revert Hj. generalize ((i + 1) `mod` 7). intros j Hj.
    do 7 (destruct j as [|j]; [reflexivity|]). lia.
  - reflexivity.
  - by rewrite (LayerColors_next_reseed i c3 2 _ eq_refl H3).
  - by rewrite (LayerColors_next_reseed i c3 2 _ eq_refl H3).
  - reflexivity.
  - by rewrite (LayerColors_next_reseed i c7 6 _ eq_refl H7).
  - by rewrite (LayerColors_next_reseed i c7 6 _ eq_refl H7).
Qed.

(** C8, from the initial index, with half-transparent and quarter-transparent
    copies of the third and the last colour. *)
Lemma LayerColors_cycles_through_palette_witness :
  (LayerColors.next_n 7 LayerColors.i0).2 ≡ₚ Some <$> LayerColors.COLORS
  ∧ (LayerColors.next LayerColors.i0 (Some (mkRgba 250 225 80 (1 # 2)))).2
    = Some (mkRgba 233 137 81 1)
  ∧ (LayerColors.next LayerColors.i0 (Some (mkRgba 167 116 234 (1 # 4)))).2
    = Some (mkRgba 123 159 237 1).
Proof.
  destruct (LayerColors_cycles_through_palette LayerColors.i0
              (mkRgba 250 225 80 (1 # 2)) (mkRgba 167 116 234 (1 # 4)))
    as (_ & _ & _ & Hp & _ & _ & _ & H4 & _ & _ & H1).
  - reflexivity.
  - reflexivity.
  - split_and!; [exact Hp|exact H4|exact H1].
Defined.

(** ** The splicer: the copying loops *)

Lemma with_edges_id st : with_edges (edges (graph st)) st = st.
Proof. by destruct st as [[] ?]. Qed.

Lemma String_eqb_false (a b : string) : a ≠ b → String.eqb a b = false.
Proof. apply String.eqb_neq. Qed.

(** An edge pushed by the loop ends in the regional node, so it is not
    copied again when the loop reaches it. *)
Lemma feeds_copy_to globalId regionalId e :
  regionalId ≠ globalId → feeds globalId (copy_to regionalId e) = false.
Proof.
  intros Hne. unfold feeds, copy_to. simpl. by rewrite String_eqb_false.
Qed.

(** A copying loop that does not feed itself ends, given fuel for the
    edges present and the edges it adds; it appends the copies of the
    edges that feed the global node, in order. *)
Lemma for_of_edges_copy (globalId regionalId : string) (fuel : nat) :
  regionalId ≠ globalId →
  ∀ (i : nat) (st : Splice),
    (i ≤ length (edges (graph st)))%nat →
    length (edges (graph st)) - i
      + length (List.filter (feeds globalId) (drop i (edges (graph st)))) < fuel →
    for_of_edges fuel i (copy_connection globalId regionalId) st
    = Some (Normal tt,
            with_edges (edges (graph st)
                        ++ (copy_to regionalId
                              <$> List.filter (feeds globalId) (drop i (edges (graph st)))))
                       st).
Proof.
  intros Hne. induction fuel as [|fuel IH]; intros i st Hi Hfuel; [lia|].
  simpl. destruct (edges (graph st) !! i) as [e|] eqn:He.
  - pose proof (lookup_lt_Some _ _ _ He) as Hlt.
    rewrite (drop_S _ _ _ He) in Hfuel |- *. simpl in Hfuel |- *.
    unfold bind, copy_connection. destruct (feeds globalId e) eqn:Hf.
    + unfold push_edge. rewrite IH; simpl.
      * rewrite drop_app_le by lia. rewrite List.filter_app. simpl.
        rewrite (feeds_copy_to _ _ _ Hne). rewrite (right_id_L [] (++)).
        unfold with_edges. simpl. by rewrite <- (assoc_L (++)).
      * rewrite length_app. simpl. lia.
      * rewrite drop_app_le by lia. rewrite List.filter_app. simpl.
        rewrite (feeds_copy_to _ _ _ Hne). rewrite (right_id_L [] (++)).
        rewrite length_app. simpl in *. lia.
    + unfold ret. rewrite IH; [done|lia|lia].
  - apply lookup_ge_None in He. rewrite drop_ge by done. simpl.
    by rewrite (right_id_L [] (++)), with_edges_id.
Qed.

Lemma filter_length_le {A} (f : A → bool) l :
  (length (List.filter f l) ≤ length l)%nat.
Proof. induction l as [|a l IH]; simpl; [done|]. destruct (f a); simpl; lia. Qed.

Lemma for_of_edges_copy_all (globalId regionalId : string) (fuel : nat) (st : Splice) :
  regionalId ≠ globalId →
  2 * length (edges (graph st)) < fuel →
  for_of_edges fuel 0 (copy_connection globalId regionalId) st
  = Some (Normal tt,
          with_edges (edges (graph st)
                      ++ (copy_to regionalId
                            <$> List.filter (feeds globalId) (edges (graph st))))
                     st).
Proof.
  intros Hne Hfuel. rewrite (for_of_edges_copy _ _ _ Hne); [done|lia|].
  rewrite drop_0. pose proof (filter_length_le (feeds globalId) (edges (graph st))). lia.
Qed.

(** C10: with the feature flag off the call returns at once; the graph,
    nodes and edges, is the one passed in and no upload has been started. *)
Theorem addRegionalPromptsToGraph_disabled_noop
    (K : GraphConstants) (env : Env) (fuel : nat) (state : RootState)
    (denoiseNodeId : string) (st : Splice) :
  isEnabled (regionalPrompts_present state) = false →
  addRegionalPromptsToGraph K env fuel state denoiseNodeId st = Some (Normal tt, st).
Proof.
  intros H. unfold addRegionalPromptsToGraph. by rewrite H.
Qed.

(** C10, on the base graph of the examples, one layer in the disabled state. *)
Lemma addRegionalPromptsToGraph_disabled_noop_witness :
  addRegionalPromptsToGraph Ex.K Ex.env 0
    (Ex.rootOf false [Ex.promptLayer "a" invert]) Ex.denoise Ex.start
  = Some (Normal tt, Ex.start).
Proof.
  apply (addRegionalPromptsToGraph_disabled_noop Ex.K Ex.env 0
           (Ex.rootOf false [Ex.promptLayer "a" invert]) Ex.denoise Ex.start).
  reflexivity.
Defined.

(** ** The splicer: its steps *)


Lemma addCollectors_run K d st :
  addCollectors K d st = Some (Normal tt, collectorsAdded K d st).
Proof.
  unfold addCollectors, collectorsAdded, mbind, M_bind, bind, set_node, get_edges,
    set_edges, push_edge, with_edges, with_node. simpl.
  by rewrite <- (assoc_L (++)).
Qed.


Lemma copies_length_le globalId regionalId es :
  (length (copies globalId regionalId es) ≤ length es)%nat.
Proof. unfold copies. rewrite length_fmap. apply filter_length_le. Qed.

(** A layer with a positive prompt only: the closed form of what the loop
    body does for it. *)
Lemma addLayer_positive_only K env fuel isSDXL (blobs : gmap string Blob)
    layer st blob p image_name :
  blobs !! layer_id layer = Some blob →
  uploadImage env (uploads st) (maskFile (layer_id layer) blob) = Some image_name →
  layer_textPrompt layer = Some (mkTextPrompt p "") →
  truthy p = true →
  positiveCondId K (layer_id layer) ≠ POSITIVE_CONDITIONING K →
  (layer_autoNegative layer = invert →
   positiveCondInvertedId K (layer_id layer) ≠ POSITIVE_CONDITIONING K) →
  4 * (length (edges (graph st)) + 6) < fuel →
  addLayer K env fuel isSDXL blobs layer st
  = Some (Normal tt,
          let st1 := positiveAdded K isSDXL (layer_id layer) p image_name
                       (uploaded (maskFile (layer_id layer) blob) st) in
          match layer_autoNegative layer with
          | off => st1
          | invert => invertedAdded K isSDXL (layer_id layer) p st1
          end).
Proof.
  intros Hblob Hup Hprompt Hp Hr Hri Hfuel.
  unfold addLayer. rewrite Hblob, Hprompt. simpl. rewrite Hp.
  unfold mbind, M_bind. unfold bind at 1. unfold upload. rewrite Hup.
  unfold bind at 1. unfold set_node at 1.
  unfold bind at 1. unfold bind at 1. unfold set_node at 1.
  unfold bind at 1. unfold push_edge at 1.
  unfold bind at 1. unfold push_edge at 1.
  rewrite (for_of_edges_copy_all _ _ _ _ Hr).
  2:{ simpl. rewrite !length_app. simpl. lia. }
  unfold bind at 1. unfold ret at 1.
  destruct (layer_autoNegative layer).
  - clear Hri. unfold ret. f_equal. f_equal.
    unfold positiveAdded, uploaded, with_edges, with_node, copies. simpl.
    by rewrite <- !(assoc_L (++)).
  - specialize (Hri eq_refl).
    unfold bind at 1. unfold set_node at 1.
    unfold bind at 1. unfold push_edge at 1.
    unfold bind at 1. unfold set_node at 1.
    unfold bind at 1. unfold push_edge at 1.
    unfold bind at 1. unfold push_edge at 1.
    rewrite (for_of_edges_copy_all _ _ _ _ Hri).
    2:{ simpl. rewrite !length_app, length_fmap. simpl.
        match goal with |- context [List.filter ?f ?l] =>
          pose proof (filter_length_le f l) as Hle end.
        rewrite !length_app in Hle. simpl in Hle. lia. }
    f_equal. f_equal.
    unfold invertedAdded, positiveAdded, uploaded, with_edges, with_node, copies. simpl.
    by rewrite <- !(assoc_L (++)).
Qed.

(** ** The splicer: which edges end where *)

Section EdgeFilters.
Variable K : GraphConstants.
Variable d : string.

(** After the re-routing no old edge ends in the denoiser's two
    conditioning inputs. *)
Lemma filter_reroute_positive es :
  List.filter (ends_in d "positive_conditioning") (reroute K d <$> es) = [].
Proof.
  induction es as [|e es IH]; [done|]; rewrite fmap_cons; cbn [List.filter]; rewrite IH.
  reroute_cases e d.
Qed.

Lemma filter_reroute_negative es :
  List.filter (ends_in d "negative_conditioning") (reroute K d <$> es) = [].
Proof.
  induction es as [|e es IH]; [done|]; rewrite fmap_cons; cbn [List.filter]; rewrite IH.
  reroute_cases e d.
Qed.

(** The old edges that end in a collector's [item] are the re-routed
    ones, if the collectors are new to the graph. *)
Lemma filter_reroute_PC es :
  POSITIVE_CONDITIONING_COLLECT K ≠ NEGATIVE_CONDITIONING_COLLECT K →
  Forall (λ e, node_id (destination e) ≠ POSITIVE_CONDITIONING_COLLECT K) es →
  List.filter (ends_in (POSITIVE_CONDITIONING_COLLECT K) "item") (reroute K d <$> es)
  = retarget (POSITIVE_CONDITIONING_COLLECT K) <$> List.filter (ends_in d "positive_conditioning") es.
Proof.
  intros Hne Hfresh. induction Hfresh as [|e es He _ IH]; [done|]; rewrite fmap_cons; cbn [List.filter]; rewrite IH.
  reroute_cases e d.
Qed.

Lemma filter_reroute_NC es :
  POSITIVE_CONDITIONING_COLLECT K ≠ NEGATIVE_CONDITIONING_COLLECT K →
  Forall (λ e, node_id (destination e) ≠ NEGATIVE_CONDITIONING_COLLECT K) es →
  List.filter (ends_in (NEGATIVE_CONDITIONING_COLLECT K) "item") (reroute K d <$> es)
  = retarget (NEGATIVE_CONDITIONING_COLLECT K) <$> List.filter (ends_in d "negative_conditioning") es.
Proof.
  intros Hne Hfresh. induction Hfresh as [|e es He _ IH]; [done|]; rewrite fmap_cons; cbn [List.filter]; rewrite IH.
  reroute_cases e d.
Qed.

(** The edges that feed a global conditioning node are not re-routed. *)
Lemma filter_feeds_reroute g es :
  g ≠ d → g ≠ POSITIVE_CONDITIONING_COLLECT K → g ≠ NEGATIVE_CONDITIONING_COLLECT K →
  List.filter (feeds g) (reroute K d <$> es) = List.filter (feeds g) es.
Proof.
  intros Hd Hpc Hnc. induction es as [|e es IH]; [done|]; rewrite fmap_cons; cbn [List.filter]; rewrite IH.
  reroute_cases e d.
Qed.

(** No old edge ends in a node that is new to the graph. *)
Lemma filter_to_node_reroute x es :
  x ≠ POSITIVE_CONDITIONING_COLLECT K → x ≠ NEGATIVE_CONDITIONING_COLLECT K →
  Forall (λ e, node_id (destination e) ≠ x) es →
  List.filter (to_node x) (reroute K d <$> es) = [].
Proof.
  intros Hpc Hnc Hfresh. induction Hfresh as [|e es He _ IH]; [done|]; rewrite fmap_cons; cbn [List.filter]; rewrite IH.
  reroute_cases e d.
Qed.
End EdgeFilters.

Lemma filter_ends_in_copies x fld g r es :
  r ≠ x → List.filter (ends_in x fld) (copies g r es) = [].
Proof.
  intros Hne. unfold copies.
  induction (List.filter (feeds g) es) as [|e l IH]; [done|]; rewrite fmap_cons; cbn [List.filter]; rewrite IH.
  unfold ends_in, copy_to. simpl. by rewrite (String_eqb_false r x).
Qed.

Lemma filter_to_node_copies_ne x g r es :
  r ≠ x → List.filter (to_node x) (copies g r es) = [].
Proof.
  intros Hne. unfold copies.
  induction (List.filter (feeds g) es) as [|e l IH]; [done|]; rewrite fmap_cons; cbn [List.filter]; rewrite IH.
  unfold to_node, copy_to. simpl. by rewrite (String_eqb_false r x).
Qed.

Lemma filter_to_node_copies g r es :
  List.filter (to_node r) (copies g r es) = copies g r es.
Proof.
  unfold copies.
  induction (List.filter (feeds g) es) as [|e l IH]; [done|]; rewrite fmap_cons; cbn [List.filter]; rewrite IH.
  unfold to_node, copy_to. simpl. by rewrite String.eqb_refl.
Qed.

Lemma filter_feeds_copies g r g' es :
  r ≠ g → List.filter (feeds g) (copies g' r es) = [].
Proof.
  intros Hne. unfold copies.
  induction (List.filter (feeds g') es) as [|e l IH]; [done|]; rewrite fmap_cons; cbn [List.filter]; rewrite IH.
  unfold feeds, copy_to. simpl. by rewrite (String_eqb_false r g).
Qed.

Lemma copies_copies g r' g' r es :
  r ≠ g → copies g r' (copies g' r es) = [].
Proof. intros Hne. unfold copies at 1. by rewrite filter_feeds_copies. Qed.

Lemma copies_reroute K d g r es :
  g ≠ d → g ≠ POSITIVE_CONDITIONING_COLLECT K → g ≠ NEGATIVE_CONDITIONING_COLLECT K →
  copies g r (reroute K d <$> es) = copies g r es.
Proof. intros ???. unfold copies. by rewrite filter_feeds_reroute. Qed.

Lemma copies_app g r es1 es2 :
  copies g r (es1 ++ es2) = copies g r es1 ++ copies g r es2.
Proof. unfold copies. by rewrite List.filter_app, fmap_app. Qed.

(** ** The splicer on one layer with a positive prompt only *)

Section OneLayer.
Variable K : GraphConstants.
Variable env : Env.
Variable fuel : nat.
Variable state : RootState.
Variable d : string.
Variable st : Splice.
Variable layer : Layer.
Variable p : string.
Variable blob : Blob.
Variable image_name : string.

Hypothesis Henabled : isEnabled (regionalPrompts_present state) = true.
Hypothesis Hlayers : layers (regionalPrompts_present state) = [layer].
Hypothesis Hkind : isVectorMaskLayer layer = true.
Hypothesis Hvisible : layer_isVisible layer = true.
Hypothesis Hprompt : layer_textPrompt layer = Some (mkTextPrompt p "").
Hypothesis Hp : p ≠ "".
Hypothesis Hblobs :
  getRegionalPromptLayerBlobs env [layer_id layer] = {[ layer_id layer := blob ]}.
Hypothesis Hupload :
  uploadImage env (uploads st) (maskFile (layer_id layer) blob) = Some image_name.
Hypothesis Hr : positiveCondId K (layer_id layer) ≠ POSITIVE_CONDITIONING K.
Hypothesis Hri :
  layer_autoNegative layer = invert →
  positiveCondInvertedId K (layer_id layer) ≠ POSITIVE_CONDITIONING K.
Hypothesis Hfuel : 4 * (length (edges (graph st)) + 8) < fuel.

Lemma truthy_nonempty : truthy p = true.
Proof. unfold truthy. by rewrite (String_eqb_false p "" Hp). Qed.

Lemma filteredLayers_single : filteredLayers state = [layer].
Proof.
  unfold filteredLayers. rewrite Hlayers. simpl. rewrite Hkind. simpl.
  rewrite Hvisible. simpl. unfold hasPrompt. rewrite Hprompt. simpl.
  by rewrite truthy_nonempty.
Qed.

(** The whole pass, in closed form. *)
Lemma addRegionalPromptsToGraph_one_layer :
  addRegionalPromptsToGraph K env fuel state d st
  = Some (Normal tt,
          let isSDXL := bool_decide (generation_model_base state = Some "sdxl") in
          let st1 := positiveAdded K isSDXL (layer_id layer) p image_name
                       (uploaded (maskFile (layer_id layer) blob)
                          (collectorsAdded K d st)) in
          match layer_autoNegative layer with
          | off => st1
          | invert => invertedAdded K isSDXL (layer_id layer) p st1
          end).
Proof.
  unfold addRegionalPromptsToGraph. rewrite Henabled. simpl.
  rewrite filteredLayers_single. simpl. rewrite Hblobs.
  rewrite map_size_singleton. simpl.
  unfold mbind, M_bind, assert. unfold bind at 1, ret at 1.
  unfold bind at 1. rewrite addCollectors_run.
  unfold bind at 1.
  rewrite (addLayer_positive_only K env fuel _ _ layer _ blob p image_name).
  - reflexivity.
  - apply lookup_singleton_eq.
  - exact Hupload.
  - exact Hprompt.
  - exact truthy_nonempty.
  - exact Hr.
  - exact Hri.
  - unfold collectorsAdded, with_edges. simpl.
    rewrite length_app, length_fmap. simpl. lia.
Qed.
End OneLayer.

Lemma fresh_Forall (x : string) (ids : list string) (es : list Edge) :
  Forall (λ e, node_id (destination e) ∉ ids) es →
  x ∈ ids →
  Forall (λ e, node_id (destination e) ≠ x) es.
Proof.
  intros H Hx. eapply Forall_impl; [exact H|]. simpl.
  intros e He Heq. by rewrite Heq in He.
Qed.

(** C1, as the code has it: one visible layer with a positive prompt only
    and auto-negative off. The denoiser's positive input comes from the
    positive collector alone, and that collector has two item edges, in
    this order: the edge that fed the denoiser before, re-routed, and the
    one from the new regional conditioning node. The regional node gets
    the mask and a copy of every edge into a non-prompt input of the global
    positive node. The denoiser's negative input comes from the negative
    collector alone, whose only item edge is the re-routed global one. *)
Theorem splice_positive_layer_auto_negative_off
    (K : GraphConstants) (env : Env) (fuel : nat) (state : RootState)
    (d : string) (st : Splice) (layer : Layer) (p : string) (blob : Blob)
    (image_name : string) (eP eN : Edge) :
  let PCOND := POSITIVE_CONDITIONING K in
  let PC := POSITIVE_CONDITIONING_COLLECT K in
  let NC := NEGATIVE_CONDITIONING_COLLECT K in
  let m := maskToTensorId K (layer_id layer) in
  let r := positiveCondId K (layer_id layer) in
  let isSDXL := bool_decide (generation_model_base state = Some "sdxl") in
  isEnabled (regionalPrompts_present state) = true →
  layers (regionalPrompts_present state) = [layer] →
  isVectorMaskLayer layer = true →
  layer_isVisible layer = true →
  layer_textPrompt layer = Some (mkTextPrompt p "") →
  p ≠ "" →
  layer_autoNegative layer = off →
  getRegionalPromptLayerBlobs env [layer_id layer] = {[ layer_id layer := blob ]} →
  uploadImage env (uploads st) (maskFile (layer_id layer) blob) = Some image_name →
  NoDup [PCOND; PC; NC; d; m; r] →
  Forall (λ e, node_id (destination e) ∉ [PC; NC; r]) (edges (graph st)) →
  edges_into (graph st) d "positive_conditioning" = [eP] →
  edges_into (graph st) d "negative_conditioning" = [eN] →
  4 * (length (edges (graph st)) + 8) < fuel →
  ∃ st',
    addRegionalPromptsToGraph K env fuel state d st = Some (Normal tt, st')
    ∧ uploads st' = uploads st ++ [maskFile (layer_id layer) blob]
    ∧ edges_into (graph st') d "positive_conditioning"
      = [mkEdge (mkEnd PC "collection") (mkEnd d "positive_conditioning")]
    ∧ nodes (graph st') !! PC = Some (CollectInvocation PC)
    ∧ edges_into (graph st') PC "item"
      = [retarget PC eP; mkEdge (mkEnd r "conditioning") (mkEnd PC "item")]
    ∧ nodes (graph st') !! r = Some (condNode isSDXL r p)
    ∧ edges_into_node (graph st') r
      = mkEdge (mkEnd m "mask") (mkEnd r "mask") :: copies PCOND r (edges (graph st))
    ∧ edges_into (graph st') d "negative_conditioning"
      = [mkEdge (mkEnd NC "collection") (mkEnd d "negative_conditioning")]
    ∧ nodes (graph st') !! NC = Some (CollectInvocation NC)
    ∧ edges_into (graph st') NC "item" = [retarget NC eN].
Proof.
  intros PCOND PC NC m r isSDXL Hen Hlayers Hkind Hvis Hprompt Hp Hoff Hblobs Hup
    Hnodup Hfresh HeP HeN Hfuel.
  nodup_neq Hnodup.
  pose proof (fresh_Forall PC _ _ Hfresh ltac:(set_solver)) as HfPC.
  pose proof (fresh_Forall NC _ _ Hfresh ltac:(set_solver)) as HfNC.
  pose proof (fresh_Forall r _ _ Hfresh ltac:(set_solver)) as Hfr.
  unfold edges_into in HeP, HeN.
  eexists. split.
  { rewrite (addRegionalPromptsToGraph_one_layer K env fuel state d st layer p blob
               image_name Hen Hlayers Hkind Hvis Hprompt Hp Hblobs Hup);
      [|done|congruence|done].
    rewrite Hoff. reflexivity. }
  unfold positiveAdded, uploaded, collectorsAdded, with_edges, with_node,
    edges_into, edges_into_node.
  fold PCOND PC NC m r.
  cbn [graph uploads edges nodes].
  rewrite !copies_app, !List.filter_app.
  split_and!.
  - done.
  - rewrite filter_reroute_positive, !filter_ends_in_copies by done.
    cbn [List.filter]. unfold ends_in. simpl. eqb_known. done.
  - rewrite lookup_insert_ne, lookup_insert_ne, lookup_insert_ne, lookup_insert_eq; done.
  - rewrite (filter_reroute_PC K d) by done.
    rewrite !filter_ends_in_copies by done. rewrite HeP.
    cbn [List.filter]. unfold ends_in. simpl. eqb_known. done.
  - by rewrite lookup_insert_eq.
  - rewrite (filter_to_node_reroute K d) by done.
    rewrite !filter_to_node_copies. unfold copies.
    rewrite (filter_feeds_reroute K d) by done.
    cbn [List.filter]. unfold to_node, feeds. simpl. eqb_known. simpl.
    by rewrite !(right_id_L [] (++)).
  - rewrite filter_reroute_negative, !filter_ends_in_copies by done.
    cbn [List.filter]. unfold ends_in. simpl. eqb_known. done.
  - rewrite lookup_insert_ne, lookup_insert_ne, lookup_insert_eq; done.
  - rewrite (filter_reroute_NC K d) by done.
    rewrite !filter_ends_in_copies by done. rewrite HeN.
    cbn [List.filter]. unfold ends_in. simpl. eqb_known. done.
Qed.

(** C1, on the base graph of the examples. *)
Lemma splice_positive_layer_auto_negative_off_witness :
  ∃ st',
    addRegionalPromptsToGraph Ex.K Ex.env 100
      (Ex.rootOf true [Ex.promptLayer "a" off]) Ex.denoise Ex.start
    = Some (Normal tt, st')
    ∧ edges_into (graph st') "positive_conditioning_collect" "item"
      = [ mkEdge (mkEnd "positive_conditioning" "conditioning")
            (mkEnd "positive_conditioning_collect" "item");
          mkEdge (mkEnd "prompt_region_positive_cond_a" "conditioning")
            (mkEnd "positive_conditioning_collect" "item") ]
    ∧ edges_into (graph st') "negative_conditioning_collect" "item"
      = [ mkEdge (mkEnd "negative_conditioning" "conditioning")
            (mkEnd "negative_conditioning_collect" "item") ].
Proof.
  pose proof (splice_positive_layer_auto_negative_off Ex.K Ex.env 100
                (Ex.rootOf true [Ex.promptLayer "a" off]) Ex.denoise Ex.start
                (Ex.promptLayer "a" off) "a cat" [] "img_a_mask.png"
                (mkEdge (mkEnd "positive_conditioning" "conditioning")
                   (mkEnd "denoise_latents" "positive_conditioning"))
                (mkEdge (mkEnd "negative_conditioning" "conditioning")
                   (mkEnd "denoise_latents" "negative_conditioning"))) as H.
  cbv zeta in H.
  destruct H as (st' & Hrun & _ & _ & _ & Hpc & _ & _ & _ & _ & Hnc).
  - reflexivity.
  - reflexivity.
  - reflexivity.
  - reflexivity.
  - reflexivity.
  - discriminate.
  - reflexivity.
  - reflexivity.
  - reflexivity.
  - apply (bool_decide_unpack _). by vm_compute.
  - apply (bool_decide_unpack _). by vm_compute.
  - reflexivity.
  - reflexivity.
  - vm_compute. lia.
  - exists st'. split_and!; [exact Hrun|exact Hpc|exact Hnc].
Defined.

(** C1, counterexample: on the base graph of the examples the positive
    collector ends up with two item edges, the first from the global
    positive node, and the negative collector with one, from the global
    negative node; the global positive node feeds the collector, not the
    regional node. *)
Lemma splice_collectors_keep_global_conditioning :
  ∃ st',
    addRegionalPromptsToGraph Ex.K Ex.env 100
      (Ex.rootOf true [Ex.promptLayer "a" off]) Ex.denoise Ex.start
    = Some (Normal tt, st')
    ∧ edges_into (graph st') "positive_conditioning_collect" "item"
      ≠ [ mkEdge (mkEnd "prompt_region_positive_cond_a" "conditioning")
            (mkEnd "positive_conditioning_collect" "item") ]
    ∧ source <$> edges_into (graph st') "positive_conditioning_collect" "item"
      = [ mkEnd "positive_conditioning" "conditioning";
          mkEnd "prompt_region_positive_cond_a" "conditioning" ]
    ∧ edges_into (graph st') "negative_conditioning_collect" "item" ≠ []
    ∧ source <$> edges_into (graph st') "negative_conditioning_collect" "item"
      = [ mkEnd "negative_conditioning" "conditioning" ]
    ∧ source <$> edges_into_node (graph st') "prompt_region_positive_cond_a"
      = [ mkEnd "prompt_region_mask_to_tensor_a" "mask"; mkEnd "clip_skip" "clip" ].
Proof.
  eexists. split; [vm_compute; reflexivity|].
  split_and!; try (vm_compute; reflexivity); vm_compute; discriminate.
Qed.

(** C2, as the code has it: the same layer with auto-negative "invert".
    The negative collector has two item edges, in this order: the one that
    fed the denoiser's negative input before, re-routed, and the one from a
    conditioning node that carries the layer's positive prompt; that node
    takes its mask from the invert node, which takes the layer's mask, and
    it gets a copy of every edge into a non-prompt input of the global
    positive node. *)
Theorem splice_positive_layer_auto_negative_invert
    (K : GraphConstants) (env : Env) (fuel : nat) (state : RootState)
    (d : string) (st : Splice) (layer : Layer) (p : string) (blob : Blob)
    (image_name : string) (eP eN : Edge) :
  let PCOND := POSITIVE_CONDITIONING K in
  let PC := POSITIVE_CONDITIONING_COLLECT K in
  let NC := NEGATIVE_CONDITIONING_COLLECT K in
  let m := maskToTensorId K (layer_id layer) in
  let r := positiveCondId K (layer_id layer) in
  let inv := invertTensorMaskId K (layer_id layer) in
  let ri := positiveCondInvertedId K (layer_id layer) in
  let isSDXL := bool_decide (generation_model_base state = Some "sdxl") in
  isEnabled (regionalPrompts_present state) = true →
  layers (regionalPrompts_present state) = [layer] →
  isVectorMaskLayer layer = true →
  layer_isVisible layer = true →
  layer_textPrompt layer = Some (mkTextPrompt p "") →
  p ≠ "" →
  layer_autoNegative layer = invert →
  getRegionalPromptLayerBlobs env [layer_id layer] = {[ layer_id layer := blob ]} →
  uploadImage env (uploads st) (maskFile (layer_id layer) blob) = Some image_name →
  NoDup [PCOND; PC; NC; d; m; r; inv; ri] →
  Forall (λ e, node_id (destination e) ∉ [PC; NC; r; inv; ri]) (edges (graph st)) →
  edges_into (graph st) d "positive_conditioning" = [eP] →
  edges_into (graph st) d "negative_conditioning" = [eN] →
  4 * (length (edges (graph st)) + 8) < fuel →
  ∃ st',
    addRegionalPromptsToGraph K env fuel state d st = Some (Normal tt, st')
    ∧ edges_into (graph st') d "negative_conditioning"
      = [mkEdge (mkEnd NC "collection") (mkEnd d "negative_conditioning")]
    ∧ nodes (graph st') !! NC = Some (CollectInvocation NC)
    ∧ edges_into (graph st') NC "item"
      = [retarget NC eN; mkEdge (mkEnd ri "conditioning") (mkEnd NC "item")]
    ∧ nodes (graph st') !! ri = Some (condNode isSDXL ri p)
    ∧ edges_into_node (graph st') ri
      = mkEdge (mkEnd inv "mask") (mkEnd ri "mask") :: copies PCOND ri (edges (graph st))
    ∧ nodes (graph st') !! inv = Some (InvertTensorMaskInvocation inv)
    ∧ edges_into_node (graph st') inv = [mkEdge (mkEnd m "mask") (mkEnd inv "mask")]
    ∧ nodes (graph st') !! m = Some (AlphaMaskToTensorInvocation m image_name)
    ∧ edges_into (graph st') PC "item"
      = [retarget PC eP; mkEdge (mkEnd r "conditioning") (mkEnd PC "item")].
Proof.
  intros PCOND PC NC m r inv ri isSDXL Hen Hlayers Hkind Hvis Hprompt Hp Hinv Hblobs Hup
    Hnodup Hfresh HeP HeN Hfuel.
  nodup_neq Hnodup.
  pose proof (fresh_Forall PC _ _ Hfresh ltac:(set_solver)) as HfPC.
  pose proof (fresh_Forall NC _ _ Hfresh ltac:(set_solver)) as HfNC.
  pose proof (fresh_Forall r _ _ Hfresh ltac:(set_solver)) as Hfr.
  pose proof (fresh_Forall inv _ _ Hfresh ltac:(set_solver)) as Hfinv.
  pose proof (fresh_Forall ri _ _ Hfresh ltac:(set_solver)) as Hfri.
  unfold edges_into in HeP, HeN.
  eexists. split.
  { rewrite (addRegionalPromptsToGraph_one_layer K env fuel state d st layer p blob
               image_name Hen Hlayers Hkind Hvis Hprompt Hp Hblobs Hup);
      [|done|done|done].
    rewrite Hinv. reflexivity. }
  unfold invertedAdded, positiveAdded, uploaded, collectorsAdded, with_edges, with_node,
    edges_into, edges_into_node.
  fold PCOND PC NC m r inv ri.
  cbn [graph uploads edges nodes].
  rewrite !copies_app, !List.filter_app.
  split_and!.
  - rewrite filter_reroute_negative, !filter_ends_in_copies by done.
    cbn [List.filter]. unfold ends_in. simpl. eqb_known. done.
  - rewrite lookup_insert_ne, lookup_insert_ne, lookup_insert_ne, lookup_insert_ne,
      lookup_insert_eq; done.
  - rewrite (filter_reroute_NC K d) by done.
    rewrite !filter_ends_in_copies by done. rewrite HeN.
    cbn [List.filter]. unfold ends_in. simpl. eqb_known. done.
  - by rewrite lookup_insert_eq.
  - rewrite (filter_to_node_reroute K d) by done.
    rewrite !filter_to_node_copies.
    rewrite !filter_to_node_copies_ne by done.
    rewrite !copies_copies by done. rewrite (copies_reroute K d) by done.
    unfold copies at 2 3 4.
    cbn [List.filter]. unfold to_node, feeds. simpl. eqb_known. simpl.
    by rewrite !(right_id_L [] (++)).
  - rewrite lookup_insert_ne, lookup_insert_eq; done.
  - rewrite (filter_to_node_reroute K d) by done.
    rewrite !filter_to_node_copies_ne by done.
    cbn [List.filter]. unfold to_node. simpl. eqb_known. done.
  - rewrite lookup_insert_ne, lookup_insert_ne, lookup_insert_ne, lookup_insert_eq; done.
  - rewrite (filter_reroute_PC K d) by done.
    rewrite !filter_ends_in_copies by done. rewrite HeP.
    cbn [List.filter]. unfold ends_in. simpl. eqb_known. done.
Qed.

(** C2, on the base graph of the examples. *)
Lemma splice_positive_layer_auto_negative_invert_witness :
  ∃ st',
    addRegionalPromptsToGraph Ex.K Ex.env 100
      (Ex.rootOf true [Ex.promptLayer "a" invert]) Ex.denoise Ex.start
    = Some (Normal tt, st')
    ∧ edges_into (graph st') "negative_conditioning_collect" "item"
      = [ mkEdge (mkEnd "negative_conditioning" "conditioning")
            (mkEnd "negative_conditioning_collect" "item");
          mkEdge (mkEnd "prompt_region_positive_cond_inverted_a" "conditioning")
            (mkEnd "negative_conditioning_collect" "item") ]
    ∧ nodes (graph st') !! "prompt_region_positive_cond_inverted_a"
      = Some (CompelInvocation "prompt_region_positive_cond_inverted_a" "a cat").
Proof.
  pose proof (splice_positive_layer_auto_negative_invert Ex.K Ex.env 100
                (Ex.rootOf true [Ex.promptLayer "a" invert]) Ex.denoise Ex.start
                (Ex.promptLayer "a" invert) "a cat" [] "img_a_mask.png"
                (mkEdge (mkEnd "positive_conditioning" "conditioning")
                   (mkEnd "denoise_latents" "positive_conditioning"))
                (mkEdge (mkEnd "negative_conditioning" "conditioning")
                   (mkEnd "denoise_latents" "negative_conditioning"))) as H.
  cbv zeta in H.
  destruct H as (st' & Hrun & _ & _ & Hnc & Hri & _).
  - reflexivity.
  - reflexivity.
  - reflexivity.
  - reflexivity.
  - reflexivity.
  - discriminate.
  - reflexivity.
  - reflexivity.
  - reflexivity.
  - apply (bool_decide_unpack _). by vm_compute.
  - apply (bool_decide_unpack _). by vm_compute.
  - reflexivity.
  - reflexivity.
  - vm_compute. lia.
  - exists st'. split_and!; [exact Hrun|exact Hnc|exact Hri].
Defined.

(** C2, counterexample: on the base graph of the examples the negative
    collector ends up with two item edges, not one; the first comes from
    the global negative node. *)
Lemma splice_invert_negative_collector_has_two_inputs :
  ∃ st',
    addRegionalPromptsToGraph Ex.K Ex.env 100
      (Ex.rootOf true [Ex.promptLayer "a" invert]) Ex.denoise Ex.start
    = Some (Normal tt, st')
    ∧ length (edges_into_node (graph st') "negative_conditioning_collect") = 2
    ∧ length (edges_into (graph st') "negative_conditioning_collect" "item") = 2
    ∧ source <$> edges_into (graph st') "negative_conditioning_collect" "item"
      = [ mkEnd "negative_conditioning" "conditioning";
          mkEnd "prompt_region_positive_cond_inverted_a" "conditioning" ]
    ∧ edges_into (graph st') "negative_conditioning_collect" "item"
      ≠ [ mkEdge (mkEnd "prompt_region_positive_cond_inverted_a" "conditioning")
            (mkEnd "negative_conditioning_collect" "item") ].
Proof.
  eexists. split; [vm_compute; reflexivity|].
  split_and!; try (vm_compute; reflexivity); vm_compute; discriminate.
Qed.

(** ** The splicer ends *)

Section Completes.
Variable K : GraphConstants.
Variable env : Env.

Lemma completes_ret {A} (x : A) a : completes (ret x) a a.
Proof. intros st Hst. by exists x, st. Qed.

Lemma completes_weaken {A} (m : M A) a b b' :
  completes m a b → b ≤ b' → completes m a b'.
Proof.
  intros Hm Hb st Hst. destruct (Hm st Hst) as (x & st' & ? & ?).
  exists x, st'. split; [done|lia].
Qed.

Lemma completes_bind {A B} (m : M A) (k : A → M B) a b c :
  completes m a b → (∀ x, completes (k x) b c) → completes (bind m k) a c.
Proof.
  intros Hm Hk st Hst. destruct (Hm st Hst) as (x & st' & Hrun & Hst').
  destruct (Hk x st' Hst') as (y & st'' & Hrun' & Hst'').
  exists y, st''. split; [|done]. unfold bind. by rewrite Hrun.
Qed.

Lemma completes_set_node id n a : completes (set_node id n) a a.
Proof. intros st Hst. by exists tt, (with_node id n st). Qed.

Lemma completes_push_edge e a : completes (push_edge e) a (a + 1).
Proof.
  intros st Hst. exists tt, (with_edges (edges (graph st) ++ [e]) st).
  split; [done|]. simpl. rewrite length_app. simpl. lia.
Qed.

Lemma completes_copy fuel globalId regionalId a :
  regionalId ≠ globalId → 2 * a < fuel →
  completes (for_of_edges fuel 0 (copy_connection globalId regionalId)) a (2 * a).
Proof.
  intros Hne Hfuel st Hst. eexists tt, _. split.
  - apply for_of_edges_copy_all; [done|lia].
  - simpl. rewrite length_app.
    pose proof (copies_length_le globalId regionalId (edges (graph st))) as Hle.
    unfold copies in Hle. lia.
Qed.

Lemma completes_upload file a :
  (∀ log, is_Some (uploadImage env log file)) →
  completes (upload env file) a a.
Proof.
  intros Hup st Hst. destruct (Hup (uploads st)) as [image_name Hname].
  exists image_name, (uploaded file st). split; [|done].
  unfold upload. by rewrite Hname.
Qed.

(** One of the three blocks of the loop body: a node, two or three
    edges, and the copying loop. *)
Lemma completes_cond_block fuel id n e1 e2 globalId a :
  id ≠ globalId → 2 * (a + 2) < fuel →
  completes
    (bind (set_node id n)
       (λ _, bind (push_edge e1)
               (λ _, bind (push_edge e2)
                       (λ _, for_of_edges fuel 0 (copy_connection globalId id)))))
    a (2 * (a + 2)).
Proof.
  intros Hne Hfuel.
  eapply completes_bind; [apply completes_set_node|intros _].
  eapply completes_bind; [apply completes_push_edge|intros _].
  eapply completes_bind; [apply completes_push_edge|intros _].
  eapply completes_weaken; [apply completes_copy; [done|lia]|lia].
Qed.

(** The loop body ends for a layer that has its blob, when its upload
    succeeds and none of its conditioning nodes has the id of a global
    conditioning node. *)
Lemma addLayer_completes fuel isSDXL (blobs : gmap string Blob) layer blob a :
  blobs !! layer_id layer = Some blob →
  (∀ log, is_Some (uploadImage env log (maskFile (layer_id layer) blob))) →
  positiveCondId K (layer_id layer) ≠ POSITIVE_CONDITIONING K →
  negativeCondId K (layer_id layer) ≠ NEGATIVE_CONDITIONING K →
  positiveCondInvertedId K (layer_id layer) ≠ POSITIVE_CONDITIONING K →
  8 * a + 30 < fuel →
  completes (addLayer K env fuel isSDXL blobs layer) a (8 * a + 30).
Proof.
  intros Hblob Hup Hr Hn Hri Hfuel. unfold addLayer. rewrite Hblob.
  unfold mbind, M_bind.
  eapply completes_bind; [by apply completes_upload|intros image_name].
  eapply completes_bind; [apply completes_set_node|intros _].
  apply (completes_bind _ _ a (2 * (a + 2))).
  { destruct (positive <$> layer_textPrompt layer) as [prompt|];
      [destruct (truthy prompt)|].
    - apply completes_cond_block; [done|lia].
    - eapply completes_weaken; [apply completes_ret|lia].
    - eapply completes_weaken; [apply completes_ret|lia]. }
  intros _.
  apply (completes_bind _ _ _ (2 * (2 * (a + 2) + 2))).
  { destruct (negative <$> layer_textPrompt layer) as [prompt|];
      [destruct (truthy prompt)|].
    - apply completes_cond_block; [done|lia].
    - eapply completes_weaken; [apply completes_ret|lia].
    - eapply completes_weaken; [apply completes_ret|lia]. }
  intros _.
  apply (completes_weaken _ _ (2 * (2 * (2 * (a + 2) + 2) + 3))); [|lia].
  destruct (layer_autoNegative layer);
    [eapply completes_weaken; [apply completes_ret|lia]|].
  destruct (positive <$> layer_textPrompt layer) as [prompt|];
    [destruct (truthy prompt)|].
  - eapply completes_bind; [apply completes_set_node|intros _].
    eapply completes_bind; [apply completes_push_edge|intros _].
    eapply completes_bind; [apply completes_set_node|intros _].
    eapply completes_bind; [apply completes_push_edge|intros _].
    eapply completes_bind; [apply completes_push_edge|intros _].
    eapply completes_weaken; [apply completes_copy; [done|lia]|lia].
  - eapply completes_weaken; [apply completes_ret|lia].
  - eapply completes_weaken; [apply completes_ret|lia].
Qed.

Lemma edgesAfter_ge n a : a ≤ edgesAfter n a.
Proof.
  revert a. induction n as [|n IH]; intros a; cbn [edgesAfter]; [done|].
  specialize (IH (8 * a + 30)). lia.
Qed.

(** The layers that can be processed: blob, upload and ids as in
    [addLayer_completes]. *)
Lemma for_of_addLayer_completes fuel isSDXL (blobs : gmap string Blob) ls :
  Forall (processable K env blobs) ls →
  ∀ a, edgesAfter (length ls) a < fuel →
    completes (for_of ls (addLayer K env fuel isSDXL blobs)) a
      (edgesAfter (length ls) a).
Proof.
  induction 1 as [|layer ls Hl _ IH]; intros a Hfuel;
    cbn [for_of length edgesAfter] in *.
  - apply completes_ret.
  - destruct Hl as ((blob & Hblob & Hup) & Hr & Hn & Hri).
    pose proof (edgesAfter_ge (length ls) (8 * a + 30)).
    eapply completes_bind; [|intros _; by apply IH].
    apply (addLayer_completes _ _ _ _ blob); [done..|lia].
Qed.

Lemma addCollectors_completes d a : completes (addCollectors K d) a (a + 2).
Proof.
  intros st Hst. exists tt, (collectorsAdded K d st).
  split; [apply addCollectors_run|].
  simpl. rewrite length_app, length_fmap. simpl. lia.
Qed.
End Completes.






(** * More properties of the code *)

(** ** The layer store: lookups that fail *)

Lemma findIndex_absent (layerId : string) (ls : list Layer) :
  layerId ∉ layer_id <$> ls → findIndex (has_id layerId) ls = None.
Proof.
  intros Hnot. apply findIndex_None. apply Forall_forall. intros l Hl.
  apply has_id_false. intros Heq. apply Hnot.
  apply list_elem_of_fmap. by exists l.
Qed.

Lemma with_layer_absent layerId body s :
  layerId ∉ layer_id <$> layers s → with_layer layerId body s = s.
Proof. intros H. unfold with_layer. by rewrite findIndex_absent. Qed.

(** X1: an action whose reducer looks a layer up by an id no layer has
    (select, toggle, translate, bbox change, reset, prompt, colour and
    auto-negative changes, and the three drawing actions) leaves the store
    as it is. *)
Theorem reduce_unknown_layer_noop (st : Store) (a : Act.t) (layerId : string) :
  targetOf a = Some layerId →
  layerId ∉ layer_id <$> layers (present st) →
  reduce st a = st.
Proof.
  intros Ht Hnot. pose proof (findIndex_absent _ _ Hnot) as Hfind.
  destruct st as [s i]. simpl in *.
  destruct a; simpl in Ht; try discriminate Ht; injection Ht as ->; simpl;
    f_equal;
    try (by apply with_layer_absent).
  - unfold layerSelected. by rewrite Hfind.
  - unfold maskLayerRectAdded. destruct (_ || _); [done|]. by apply with_layer_absent.
Qed.

(** X1, on the three layers a, b, c and the unknown id z. *)
Lemma reduce_unknown_layer_noop_witness :
  reduce (mkStore Ex.abc 6) (Act.maskLayerLineAdded "z" 0 0 1 1 eraser "u")
  = mkStore Ex.abc 6.
Proof.
  apply (reduce_unknown_layer_noop (mkStore Ex.abc 6)
           (Act.maskLayerLineAdded "z" 0 0 1 1 eraser "u") "z").
  - reflexivity.
  - apply (bool_decide_unpack _). by vm_compute.
Defined.

(** X2: a delete with an id no layer has keeps every layer, and still
    moves the selection to the first layer of the list (null when the list
    is empty), whatever was selected before. *)
Theorem layerDeleted_unknown_layer (layerId : string) (s : RegionalPromptsState) :
  layerId ∉ layer_id <$> layers s →
  layers (layerDeleted layerId s) = layers s
  ∧ selectedLayerId (layerDeleted layerId s) = layer_id <$> head (layers s).
Proof.
  intros Hnot. destruct (layerDeleted_result layerId s) as [-> ->].
  assert (filter (λ l, layer_id l ≠ layerId) (layers s) = layers s) as ->; [|done].
  induction (layers s) as [|l ls IH]; [done|].
  rewrite fmap_cons, not_elem_of_cons in Hnot. destruct Hnot as [Hl Hls].
  rewrite filter_cons_True by done. by rewrite IH.
Qed.

(** X2, on the layers a, b, c with c selected: deleting the unknown z
    selects a. *)
Lemma layerDeleted_unknown_layer_witness :
  layers (layerDeleted "z" (set_selectedLayerId (Some "c") Ex.abc)) = layers Ex.abc
  ∧ selectedLayerId (layerDeleted "z" (set_selectedLayerId (Some "c") Ex.abc)) = Some "a".
Proof.
  apply (layerDeleted_unknown_layer "z" (set_selectedLayerId (Some "c") Ex.abc)).
  apply (bool_decide_unpack _). by vm_compute.
Defined.

(** ** The layer store: lookups that succeed *)

Lemma with_layer_found layerId body s i layer :
  findIndex (has_id layerId) (layers s) = Some i →
  layers s !! i = Some layer →
  with_layer layerId body s = set_layers (<[i:=body layer]> (layers s)) s.
Proof. intros Hi Hl. unfold with_layer. by rewrite Hi, Hl. Qed.

Lemma findIndex_insert_same_id layerId (ls : list Layer) i l l' :
  findIndex (has_id layerId) ls = Some i →
  ls !! i = Some l →
  layer_id l' = layer_id l →
  findIndex (has_id layerId) (<[i:=l']> ls) = Some i.
Proof.
  intros Hi Hl Hid.
  destruct (findIndex_Some _ _ _ Hi) as (x & Hx & Hcb & Hbefore).
  rewrite Hl in Hx. injection Hx as <-.
  pose proof (lookup_lt_Some _ _ _ Hl) as Hlt.
  rewrite insert_take_drop by done.
  rewrite (findIndex_middle _ (take i ls) l' (drop (S i) ls) Hbefore).
  - by rewrite length_take_le by lia.
  - unfold has_id in *. by rewrite Hid.
Qed.

Lemma with_layer_absent_index layerId body s :
  findIndex (has_id layerId) (layers s) = None → with_layer layerId body s = s.
Proof. intros H. unfold with_layer. by rewrite H. Qed.

(** Two reducers on the same layer, one after the other, act as one. *)
Lemma with_layer_compose layerId f g s :
  (∀ l, layer_id (f l) = layer_id l) →
  with_layer layerId g (with_layer layerId f s)
  = with_layer layerId (λ l, g (f l)) s.
Proof.
  intros Hf. unfold with_layer at 2 3.
  destruct (findIndex (has_id layerId) (layers s)) as [i|] eqn:Hi;
    [|by apply with_layer_absent_index].
  destruct (layers s !! i) as [l|] eqn:Hl; [|unfold with_layer; by rewrite Hi, Hl].
  pose proof (lookup_lt_Some _ _ _ Hl) as Hlt.
  rewrite (with_layer_found layerId g _ i (f l)); simpl.
  - by rewrite list_insert_insert_eq.
  - by apply (findIndex_insert_same_id _ _ _ l).
  - by apply list_lookup_insert_eq.
Qed.

Lemma with_layer_identity layerId body s :
  (∀ l, body l = l) → with_layer layerId body s = s.
Proof.
  intros Hb. unfold with_layer.
  destruct (findIndex _ _) as [i|]; [|done].
  destruct (layers s !! i) as [l|] eqn:Hl; [|done].
  rewrite Hb, (list_insert_id _ _ _ Hl). apply set_layers_id.
Qed.

Lemma with_layer_ext layerId f g s :
  (∀ l, f l = g l) → with_layer layerId f s = with_layer layerId g s.
Proof.
  intros Hfg. unfold with_layer.
  destruct (findIndex _ _) as [i|]; [|done].
  destruct (layers s !! i) as [l|]; [|done]. by rewrite Hfg.
Qed.

(** X3: toggling the visibility of a layer twice gives the state back,
    whether or not the layer exists. *)
Theorem layerVisibilityToggled_twice (layerId : string) (s : RegionalPromptsState) :
  layerVisibilityToggled layerId (layerVisibilityToggled layerId s) = s.
Proof.
  unfold layerVisibilityToggled. rewrite with_layer_compose by done.
  apply with_layer_identity. intros [].
  unfold set_layer_isVisible. simpl. by rewrite negb_involutive.
Qed.

(** X4: a reset empties the layer's objects, drops its bbox, makes it
    visible and clears both bbox flags, and keeps its id, position, prompt,
    colour and auto-negative setting; the other layers and the rest of the
    state stay, and a second reset changes nothing more. *)
Theorem layerReset_effect (layerId : string) (s : RegionalPromptsState)
    (i : nat) (layer : Layer) :
  findIndex (has_id layerId) (layers s) = Some i →
  layers s !! i = Some layer →
  layerReset layerId s
  = set_layers
      (<[i := {| layer_id := layer_id layer;
                 layer_kind := layer_kind layer;
                 layer_x := layer_x layer;
                 layer_y := layer_y layer;
                 layer_bbox := None;
                 layer_bboxNeedsUpdate := false;
                 layer_isVisible := true;
                 layer_textPrompt := layer_textPrompt layer;
                 layer_imagePrompts := layer_imagePrompts layer;
                 layer_previewColor := layer_previewColor layer;
                 layer_autoNegative := layer_autoNegative layer;
                 layer_needsPixelBbox := false;
                 layer_objects := [] |}]> (layers s)) s
  ∧ layerReset layerId (layerReset layerId s) = layerReset layerId s.
Proof.
  intros Hi Hl. split.
  - unfold layerReset. by rewrite (with_layer_found _ _ _ _ _ Hi Hl).
  - unfold layerReset. rewrite with_layer_compose by done.
    by apply with_layer_ext.
Qed.

(** X4, on a layer that holds a line and a rectangle. *)
Lemma layerReset_effect_witness :
  layers (layerReset "a" Ex.lineThenRect) = [Ex.mkPlainLayer "a" []]
  ∧ layerReset "a" (layerReset "a" Ex.lineThenRect) = layerReset "a" Ex.lineThenRect.
Proof.
  destruct (layerReset_effect "a" Ex.lineThenRect 0
              (Ex.mkPlainLayer "a" [vector_mask_line Ex.aLine; vector_mask_rect Ex.aRect]))
    as [H1 H2].
  - reflexivity.
  - reflexivity.
  - split; [by rewrite H1|exact H2].
Defined.

(** X5: a rectangle of zero width or zero height is ignored: the state
    stays as it is, whatever layer is named. *)
Theorem maskLayerRectAdded_zero_area (layerId : string) (rect : IRect) (uuid : string)
    (s : RegionalPromptsState) :
  (irect_height rect == 0)%Q ∨ (irect_width rect == 0)%Q →
  maskLayerRectAdded layerId rect uuid s = s.
Proof.
  intros H. unfold maskLayerRectAdded.
  assert (Qeq_bool (irect_height rect) 0 || Qeq_bool (irect_width rect) 0 = true) as ->;
    [|done].
  apply orb_true_iff. destruct H as [H|H]; [left|right]; by apply Qeq_bool_iff.
Qed.

(** X5, with a rectangle of height 0 written as 0/3. *)
Lemma maskLayerRectAdded_zero_area_witness :
  maskLayerRectAdded "a" (mkIRect 1 2 10 (0 # 3)) "u" Ex.rectOnly = Ex.rectOnly.
Proof.
  apply (maskLayerRectAdded_zero_area "a" (mkIRect 1 2 10 (0 # 3)) "u" Ex.rectOnly).
  left. reflexivity.
Defined.

Lemma findLastIndex_snoc {A} (cb : A → bool) (arr : list A) (x : A) :
  cb x = true → findLastIndex cb (arr ++ [x]) = Some (length arr).
Proof.
  intros Hx. unfold findLastIndex. rewrite reverse_snoc. simpl. rewrite Hx. simpl.
  rewrite length_app. simpl. f_equal. lia.
Qed.

(** X6: a point appended right after a line was added to the same layer
    lands on that very line, not on an older one: the objects the layer had
    stay as they are, the line added (with its id, its tool and the current
    brush size as stroke width) comes after them with its four coordinates,
    and the point appends two coordinates to it; the bbox is marked dirty
    and the other layers are not touched. *)
Theorem maskLayerPointsAdded_after_LineAdded
    (layerId : string) (p0 p1 p2 p3 px py : number) (tool : DrawingTool)
    (uuid : string) (s : RegionalPromptsState) (i : nat) (layer : Layer) :
  findIndex (has_id layerId) (layers s) = Some i →
  layers s !! i = Some layer →
  ∃ (layer1 layer2 : Layer) (ends point : list number),
    layers (maskLayerLineAdded layerId p0 p1 p2 p3 tool uuid s)
    = <[i:=layer1]> (layers s)
    ∧ layers (maskLayerPointsAdded layerId px py
                (maskLayerLineAdded layerId p0 p1 p2 p3 tool uuid s))
      = <[i:=layer2]> (layers s)
    ∧ layer_objects layer1
      = layer_objects layer
        ++ [vector_mask_line
              {| line_id := getVectorMaskLayerLineId (layer_id layer) uuid;
                 line_tool := tool;
                 line_strokeWidth := brushSize s;
                 line_points := ends |}]
    ∧ layer_objects layer2
      = layer_objects layer
        ++ [vector_mask_line
              {| line_id := getVectorMaskLayerLineId (layer_id layer) uuid;
                 line_tool := tool;
                 line_strokeWidth := brushSize s;
                 line_points := ends ++ point |}]
    ∧ length ends = 4
    ∧ length point = 2
    ∧ layer_bboxNeedsUpdate layer2 = true
    ∧ layer_id layer2 = layer_id layer.
Proof.
  intros Hi Hl. unfold maskLayerPointsAdded, maskLayerLineAdded.
  rewrite with_layer_compose.
  2:{ intros l. simpl. by destruct (negb _ && _). }
  rewrite !(with_layer_found _ _ _ _ _ Hi Hl). simpl.
  eexists _, _,
    [ (p0 - layer_x layer)%Q; (p1 - layer_y layer)%Q;
      (p2 - layer_x layer)%Q; (p3 - layer_y layer)%Q ],
    [ (px - layer_x layer)%Q; (py - layer_y layer)%Q ].
  split; [reflexivity|]. split; [reflexivity|].
  destruct (layer_needsPixelBbox layer), tool; simpl;
    rewrite findLastIndex_snoc by done;
    rewrite list_lookup_middle by done; simpl;
    rewrite insert_app_r_alt, Nat.sub_diag by done;
    by split_and!.
Qed.

(** X6, on a layer that holds one rectangle: the line comes after the
    rectangle and has six coordinates. *)
Lemma maskLayerPointsAdded_after_LineAdded_witness :
  ∃ points,
    layer_objects
      <$> layers (maskLayerPointsAdded "a" 5 6
                    (maskLayerLineAdded "a" 1 2 3 4 brush "u" Ex.rectOnly))
    = [[ vector_mask_rect Ex.aRect;
         vector_mask_line (mkLine "a.line_u" brush 100 points) ]]
    ∧ length points = 6.
Proof.
  destruct (maskLayerPointsAdded_after_LineAdded "a" 1 2 3 4 5 6 brush "u" Ex.rectOnly 0
              (Ex.mkPlainLayer "a" [vector_mask_rect Ex.aRect]))
    as (layer1 & layer2 & ends & point & _ & Hlayers & _ & Hobjs & Hends & Hpoint & _).
  - reflexivity.
  - reflexivity.
  - exists (ends ++ point). split.
    + rewrite Hlayers. simpl. by rewrite Hobjs.
    + rewrite length_app, Hends, Hpoint. reflexivity.
Defined.

(** ** The layer store: what drawing keeps *)

Lemma object_extends_refl o : object_extends o o.
Proof.
  destruct o as [l|r]; simpl; [|done].
  split_and!; try done. exists []. by rewrite (right_id_L [] (++)).
Qed.

Lemma object_extends_trans o1 o2 o3 :
  object_extends o1 o2 → object_extends o2 o3 → object_extends o1 o3.
Proof.
  destruct o1 as [l1|r1], o2 as [l2|r2], o3 as [l3|r3]; simpl; try done.
  - intros (-> & -> & -> & m1 & Hm1) (-> & -> & -> & m2 & Hm2).
    split_and!; try done. exists (m1 ++ m2). by rewrite Hm2, Hm1, (assoc_L (++)).
  - by intros -> ->.
Qed.

Lemma layer_drawn_on_refl l : layer_drawn_on l l.
Proof.
  unfold layer_drawn_on. split_and!; try done.
  exists (layer_objects l), []. split; [by rewrite (right_id_L [] (++))|].
  apply Forall_Forall2_diag, Forall_forall. intros. apply object_extends_refl.
Qed.

Lemma layer_drawn_on_trans l1 l2 l3 :
  layer_drawn_on l1 l2 → layer_drawn_on l2 l3 → layer_drawn_on l1 l3.
Proof.
  intros (? & ? & ? & ? & ? & ? & ? & ? & ? & ? & Hpx1 & k1 & a1 & Ho1 & Hk1)
         (? & ? & ? & ? & ? & ? & ? & ? & ? & ? & Hpx2 & k2 & a2 & Ho2 & Hk2).
  unfold layer_drawn_on. split_and!; try congruence; [by auto|].
  rewrite Ho1 in Hk2. apply Forall2_app_inv_l in Hk2 as (k21 & k22 & Hk21 & _ & ->).
  exists k21, (k22 ++ a2). split; [by rewrite Ho2, (assoc_L (++))|].
  eapply Forall2_trans; [|exact Hk1|exact Hk21]. apply object_extends_trans.
Qed.

Lemma with_layer_drawn_on layerId body s :
  (∀ l, layer_drawn_on l (body l)) →
  Forall2 layer_drawn_on (layers s) (layers (with_layer layerId body s))
  ∧ with_layer layerId body s = set_layers (layers (with_layer layerId body s)) s.
Proof.
  intros Hb.
  assert (Forall2 layer_drawn_on (layers s) (layers s)) as Hrefl.
  { apply Forall_Forall2_diag, Forall_forall. intros. apply layer_drawn_on_refl. }
  unfold with_layer. destruct (findIndex _ _) as [i|]; [|by rewrite set_layers_id].
  destruct (layers s !! i) as [l|] eqn:Hl; [|by rewrite set_layers_id].
  simpl. split; [|done].
  rewrite <- (list_insert_id _ _ _ Hl) at 1. by apply Forall2_insert.
Qed.

Lemma drawn_on_line_added (s : RegionalPromptsState) p0 p1 p2 p3 tool uuid l :
  layer_drawn_on l
    (let line :=
       {| line_tool := tool;
          line_id := getVectorMaskLayerLineId (layer_id l) uuid;
          line_points := [ (p0 - layer_x l)%Q; (p1 - layer_y l)%Q;
                           (p2 - layer_x l)%Q; (p3 - layer_y l)%Q ];
          line_strokeWidth := brushSize s |} in
     let layer1 := set_layer_objects (layer_objects l ++ [vector_mask_line line]) l in
     let layer2 := set_layer_bboxNeedsUpdate true layer1 in
     if negb (layer_needsPixelBbox layer2)
        && match tool with eraser => true | brush => false end
     then set_layer_needsPixelBbox true layer2
     else layer2).
Proof.
  cbv zeta. simpl.
  destruct (negb (layer_needsPixelBbox l) && _); unfold layer_drawn_on; simpl;
    split_and!; try done;
    (eexists (layer_objects l), _; split; [reflexivity|];
     apply Forall_Forall2_diag, Forall_forall; intros; apply object_extends_refl).
Qed.

Lemma drawn_on_points_added px py l :
  layer_drawn_on l
    (match findLastIndex isLine (layer_objects l) with
     | Some j =>
         match layer_objects l !! j with
         | Some (vector_mask_line lastLine) =>
             let lastLine' :=
               mkLine (line_id lastLine) (line_tool lastLine) (line_strokeWidth lastLine)
                 (line_points lastLine ++ [ (px - layer_x l)%Q; (py - layer_y l)%Q ]) in
             set_layer_bboxNeedsUpdate true
               (set_layer_objects (<[j:=vector_mask_line lastLine']> (layer_objects l)) l)
         | _ => l
         end
     | None => l
     end).
Proof.
  destruct (findLastIndex _ _) as [j|]; [|apply layer_drawn_on_refl].
  destruct (layer_objects l !! j) as [[lastLine|]|] eqn:Hj; try apply layer_drawn_on_refl.
  unfold layer_drawn_on. simpl. split_and!; try done.
  eexists _, []. split; [by rewrite (right_id_L [] (++))|].
  rewrite <- (list_insert_id _ _ _ Hj) at 1. apply Forall2_insert.
  - apply Forall_Forall2_diag, Forall_forall. intros. apply object_extends_refl.
  - simpl. split_and!; try done. by eexists.
Qed.

Lemma drawn_on_rect_added rect uuid l :
  layer_drawn_on l
    (set_layer_bboxNeedsUpdate true
       (set_layer_objects
          (layer_objects l
           ++ [vector_mask_rect
                 {| rect_id := getVectorMaskLayerRectId (layer_id l) uuid;
                    rect_x := (irect_x rect - layer_x l)%Q;
                    rect_y := (irect_y rect - layer_y l)%Q;
                    rect_width := irect_width rect;
                    rect_height := irect_height rect |}]) l)).
Proof.
  unfold layer_drawn_on. simpl. split_and!; try done.
  eexists (layer_objects l), _. split; [reflexivity|].
  apply Forall_Forall2_diag, Forall_forall. intros. apply object_extends_refl.
Qed.

Lemma reduce_drawing st a :
  isDrawing a = true →
  Forall2 layer_drawn_on (layers (present st)) (layers (present (reduce st a)))
  ∧ reduce st a = mkStore (set_layers (layers (present (reduce st a))) (present st))
                    (colors_i st).
Proof.
  intros Ha. destruct a; try discriminate Ha; simpl.
  - destruct (with_layer_drawn_on layerId
                (λ l, _) (present st)
                (drawn_on_line_added (present st) p0 p1 p2 p3 tool uuid)) as [H1 H2].
    split; [exact H1|]. f_equal. exact H2.
  - destruct (with_layer_drawn_on layerId (λ l, _) (present st)
                (drawn_on_points_added px py)) as [H1 H2].
    split; [exact H1|]. f_equal. exact H2.
  - unfold maskLayerRectAdded. destruct (_ || _).
    + split; [|by rewrite set_layers_id; destruct st].
      apply Forall_Forall2_diag, Forall_forall. intros. apply layer_drawn_on_refl.
    + destruct (with_layer_drawn_on layerId (λ l, _) (present st)
                  (drawn_on_rect_added rect uuid)) as [H1 H2].
      split; [exact H1|]. f_equal. exact H2.
Qed.

(** X7: whatever sequence of drawing actions (add line, append point, add
    rectangle) is dispatched, no layer is added, removed or reordered, and
    each layer keeps its id, position, bbox, visibility, prompts, colour and
    auto-negative setting; its objects are only extended (a line may get
    more points at its end, new objects come after the old ones) and its
    pixel-bbox flag, once set, stays set. The selection, the brush and the
    colour index are not touched. *)
Theorem drawing_only_extends (acts : list Act.t) (st : Store) :
  Forall (λ a, isDrawing a = true) acts →
  Forall2 layer_drawn_on (layers (present st)) (layers (present (run acts st)))
  ∧ run acts st = mkStore (set_layers (layers (present (run acts st))) (present st))
                    (colors_i st).
Proof.
  intros Hacts. revert st.
  induction Hacts as [|a acts Ha _ IH]; intros st; cbn [run foldl].
  - split; [|by rewrite set_layers_id; destruct st].
    apply Forall_Forall2_diag, Forall_forall. intros. apply layer_drawn_on_refl.
  - destruct (reduce_drawing st a Ha) as [H1 H2].
    destruct (IH (reduce st a)) as [H3 H4]. fold (run acts (reduce st a)) in *.
    split.
    + eapply Forall2_trans; [|exact H1|exact H3]. apply layer_drawn_on_trans.
    + destruct (reduce st a) as [s1 i1]. simpl in H2. injection H2 as Hs1 Hi1.
      etransitivity; [exact H4|]. simpl.
      generalize (layers (present (run acts (mkStore s1 i1)))). intros L.
      f_equal; [|done]. by rewrite Hs1.
Qed.

(** X7, on the stroke sequence of the undo-group test and a layer that
    holds a line and a rectangle. *)
Lemma drawing_only_extends_witness :
  Forall2 layer_drawn_on
    (layers (present (mkStore Ex.lineThenRect 6)))
    (layers (present (run Ex.strokes (mkStore Ex.lineThenRect 6)))).
Proof.
  apply (drawing_only_extends Ex.strokes (mkStore Ex.lineThenRect 6)).
  repeat constructor.
Defined.

(** ** Adding layers and the colour cycler *)

Lemma LayerColors_palette_alpha :
  Forall (λ c, rgba_a c = 1%Q) LayerColors.COLORS.
Proof. repeat constructor. Qed.

Lemma LayerColors_next_lookup (i : nat) (currentColor : option RgbaColor) :
  (LayerColors.next i currentColor).1 < length LayerColors.COLORS
  ∧ ∃ color,
      (LayerColors.next i currentColor).2 = Some color
      ∧ LayerColors.COLORS !! (LayerColors.next i currentColor).1 = Some color
      ∧ color ∈ LayerColors.COLORS
      ∧ rgba_a color = 1%Q.
Proof.
  unfold LayerColors.next. cbn [fst snd].
  set (i1 := match currentColor with Some _ => _ | None => _ end).
  assert ((i1 + 1) `mod` length LayerColors.COLORS < length LayerColors.COLORS) as Hlt.
  { apply Nat.mod_upper_bound. done. }
  split; [exact Hlt|].
  destruct (lookup_lt_is_Some_2 _ _ Hlt) as [color Hcolor].
  exists color. rewrite Hcolor. split_and!; try done.
  - by apply list_elem_of_lookup_2 in Hcolor.
  - apply list_elem_of_lookup_2 in Hcolor.
    by apply (proj1 (Forall_forall _ _) LayerColors_palette_alpha).
Qed.

(** X8: [next] never fails: whatever the index and the colour passed, the
    new index is within the palette and the colour returned is the palette
    entry at that index, of alpha 1. The [assert] never throws. *)
Theorem LayerColors_next_in_palette (i : nat) (currentColor : option RgbaColor) :
  (LayerColors.next i currentColor).1 < length LayerColors.COLORS
  ∧ ∃ color,
      (LayerColors.next i currentColor).2 = Some color
      ∧ LayerColors.COLORS !! (LayerColors.next i currentColor).1 = Some color
      ∧ color ∈ LayerColors.COLORS
      ∧ rgba_a color = 1%Q.
Proof. apply LayerColors_next_lookup. Qed.

(** X9: a colour that matches no palette entry (alpha set aside) does not
    move the index: [next(c)] answers what [next()] answers. *)
Theorem LayerColors_next_unknown_color (i : nat) (c : RgbaColor) :
  Forall (λ c', LayerColors.isEqual c' (LayerColors.with_a1 c) = false) LayerColors.COLORS →
  LayerColors.next i (Some c) = LayerColors.next i None.
Proof.
  intros H. unfold LayerColors.next.
  by rewrite (proj2 (findIndex_None _ _) H).
Qed.

(** X9, with the brush's red, which is no palette colour. *)
Lemma LayerColors_next_unknown_color_witness :
  LayerColors.next 3 (Some (mkRgba 255 0 0 1)) = LayerColors.next 3 None.
Proof.
  apply (LayerColors_next_unknown_color 3 (mkRgba 255 0 0 1)).
  repeat constructor.
Defined.

(** What [layerAdded] returns for a vector mask layer. *)
Lemma layerAdded_result (uuid : string) (s : RegionalPromptsState)
    (i : nat) :
  ∃ color,
    layerAdded "vector_mask_layer" uuid s i
    = (mkState (Some (getVectorMaskLayerId uuid))
         (layers s
          ++ [ {| layer_id := getVectorMaskLayerId uuid;
                  layer_kind := "vector_mask_layer";
                  layer_x := 0;
                  layer_y := 0;
                  layer_bbox := None;
                  layer_bboxNeedsUpdate := false;
                  layer_isVisible := true;
                  layer_textPrompt := Some (mkTextPrompt "" "");
                  layer_imagePrompts := [];
                  layer_previewColor := color;
                  layer_autoNegative := off;
                  layer_needsPixelBbox := false;
                  layer_objects := [] |} ])
         (brushSize s) (brushColor s) (globalMaskLayerOpacity s) (isEnabled s),
       (LayerColors.next i (layer_previewColor <$> last (layers s))).1)
    ∧ LayerColors.COLORS
        !! (LayerColors.next i (layer_previewColor <$> last (layers s))).1
      = Some color
    ∧ rgba_a color = 1%Q.
Proof.
  destruct (LayerColors_next_lookup i (layer_previewColor <$> last (layers s)))
    as (_ & color & Hnext & Hlookup & _ & Halpha).
  exists color. split_and!; [|done|done].
  unfold layerAdded. cbn [String.eqb Ascii.eqb Bool.eqb].
  rewrite last_lookup in Hnext |- *.
  replace (pred (length (layers s))) with (length (layers s) - 1) in * by lia.
  destruct (LayerColors.next i _) as [i' c]. simpl in Hnext. by rewrite Hnext.
Qed.

(** X10: adding a vector mask layer always succeeds. The new layer comes
    last and is selected; its id is the prefixed uuid; it is visible, empty,
    at the origin, with empty prompts and auto-negative off; its colour is
    the palette entry at the new colour index, of alpha 1 whatever the
    global opacity; the layers already there and the rest of the state are
    not touched. *)
Theorem layerAdded_appends_selected_layer (uuid : string) (s : RegionalPromptsState)
    (i : nat) :
  ∃ color,
    layerAdded "vector_mask_layer" uuid s i
    = (mkState (Some (getVectorMaskLayerId uuid))
         (layers s
          ++ [ {| layer_id := getVectorMaskLayerId uuid;
                  layer_kind := "vector_mask_layer";
                  layer_x := 0;
                  layer_y := 0;
                  layer_bbox := None;
                  layer_bboxNeedsUpdate := false;
                  layer_isVisible := true;
                  layer_textPrompt := Some (mkTextPrompt "" "");
                  layer_imagePrompts := [];
                  layer_previewColor := color;
                  layer_autoNegative := off;
                  layer_needsPixelBbox := false;
                  layer_objects := [] |} ])
         (brushSize s) (brushColor s) (globalMaskLayerOpacity s) (isEnabled s),
       (LayerColors.next i (layer_previewColor <$> last (layers s))).1)
    ∧ LayerColors.COLORS
        !! (LayerColors.next i (layer_previewColor <$> last (layers s))).1
      = Some color
    ∧ rgba_a color = 1%Q.
Proof. apply layerAdded_result. Qed.

(** X11: the colour cycler looks at red, green and blue only, so a change
    of the global opacity before a layer is added changes neither the
    colour index nor the layer that is added, whose alpha is 1 and not the
    global opacity. *)
Theorem layerAdded_after_opacity_change (uuid : string) (n : number)
    (s : RegionalPromptsState) (i : nat) :
  (layerAdded "vector_mask_layer" uuid (globalMaskLayerOpacityChanged n s) i).2
  = (layerAdded "vector_mask_layer" uuid s i).2
  ∧ last (layers (layerAdded "vector_mask_layer" uuid (globalMaskLayerOpacityChanged n s) i).1)
    = last (layers (layerAdded "vector_mask_layer" uuid s i).1)
  ∧ (rgba_a ∘ layer_previewColor)
      <$> last (layers (layerAdded "vector_mask_layer" uuid
                          (globalMaskLayerOpacityChanged n s) i).1)
    = Some 1%Q.
Proof.
  destruct (layerAdded_result uuid s i) as (c1 & -> & Hc1 & Ha1).
  destruct (layerAdded_result uuid (globalMaskLayerOpacityChanged n s) i)
    as (c2 & -> & Hc2 & Ha2).
  assert (LayerColors.next i
            (layer_previewColor <$> last (layers (globalMaskLayerOpacityChanged n s)))
          = LayerColors.next i (layer_previewColor <$> last (layers s))) as Hsame.
  { simpl. rewrite fmap_last. by destruct (last (layers s)). }
  rewrite Hsame in Hc2 |- *. rewrite Hc1 in Hc2. injection Hc2 as <-.
  cbn [fst snd layers]. rewrite !last_snoc. simpl. by rewrite Ha1.
Qed.

(** ** Layer ids stay distinct *)

Lemma getVectorMaskLayerId_inj (u u' : string) :
  getVectorMaskLayerId u = getVectorMaskLayerId u' → u = u'.
Proof.
  unfold getVectorMaskLayerId, VECTOR_MASK_LAYER_NAME. cbn. intros [= H]. exact H.
Qed.

Lemma reduce_NoDup_ids (st : Store) (a : Act.t) :
  isMove a = false →
  NoDup (layer_id <$> layers (present st)) →
  (∀ kind uuid, a = Act.layerAdded kind uuid →
     getVectorMaskLayerId uuid ∉ layer_id <$> layers (present st)) →
  NoDup (layer_id <$> layers (present (reduce st a))).
Proof.
  intros Hmove Hnd Hfresh.
  assert (∀ layerId body, (∀ l, layer_id (body l) = layer_id l) →
            NoDup (layer_id <$> layers (with_layer layerId body (present st)))) as Hwith.
  { intros layerId body Hb. by destruct (with_layer_ids layerId body (present st) Hb) as [_ ->]. }
  assert (∀ f, (∀ l, layer_id (f l) = layer_id l) →
            NoDup (layer_id <$> (f <$> layers (present st)))) as Hmap.
  { intros f Hf. rewrite <- list_fmap_compose.
    assert (layer_id ∘ f <$> layers (present st) = layer_id <$> layers (present st)) as ->;
      [|done].
    apply list_fmap_ext. intros ? l _. apply Hf. }
  destruct a; simpl; try done; try discriminate Hmove; try (by apply Hwith).
  - specialize (Hfresh kind uuid eq_refl). unfold layerAdded.
    destruct (String.eqb kind "vector_mask_layer"); [|done].
    destruct (LayerColors.next _ _) as [i' [color|]]; [|done]. simpl.
    rewrite fmap_app. apply NoDup_app. split_and!; [done| |apply NoDup_singleton].
    intros x Hx. simpl. rewrite list_elem_of_singleton. by intros ->.
  - unfold layerSelected. destruct (findIndex _ _) as [i|]; [|done].
    by destruct (layers (present st) !! i).
  - eapply sublist_NoDup; [exact Hnd|]. apply fmap_sublist, sublist_filter.
  - apply NoDup_nil_2.
  - apply Hwith. intros l. by destruct (layer_textPrompt l).
  - apply Hwith. intros l. by destruct (layer_textPrompt l).
  - apply Hwith. intros l. simpl. by destruct (negb _ && _).
  - apply Hwith. intros l. destruct (findLastIndex _ _) as [j|]; [|done].
    by destruct (layer_objects l !! j) as [[]|].
  - unfold maskLayerRectAdded. destruct (_ || _); [done|]. by apply Hwith.
  - by apply Hmap.
  - by apply Hmap.
  - by apply Hmap.
Qed.

(** X12: no action but a move makes two layers share an id, provided the
    uuid of an added layer gives an id no layer has yet. (The four moves
    hand the list to [common/util/arrayUtils] and are left out.) *)
Theorem reduce_keeps_ids_distinct (st : Store) (a : Act.t) :
  isMove a = false →
  NoDup (layer_id <$> layers (present st)) →
  (∀ kind uuid, a = Act.layerAdded kind uuid →
     getVectorMaskLayerId uuid ∉ layer_id <$> layers (present st)) →
  NoDup (layer_id <$> layers (present (reduce st a))).
Proof. apply reduce_NoDup_ids. Qed.

(** X12, adding a layer with uuid 1 to the layers a, b, c. *)
Lemma reduce_keeps_ids_distinct_witness :
  NoDup (layer_id <$> layers (present (reduce (mkStore Ex.abc 6)
                                         (Act.layerAdded "vector_mask_layer" "1")))).
Proof.
  apply (reduce_keeps_ids_distinct (mkStore Ex.abc 6) (Act.layerAdded "vector_mask_layer" "1")).
  - reflexivity.
  - apply (bool_decide_unpack _). by vm_compute.
  - intros kind uuid [= <- <-]. apply (bool_decide_unpack _). by vm_compute.
Defined.

(** The ids after an action are ids from before, or the id of the layer
    the action adds. *)
Lemma reduce_ids_from st a x :
  isMove a = false →
  x ∈ layer_id <$> layers (present (reduce st a)) →
  x ∈ layer_id <$> layers (present st)
  ∨ ∃ kind uuid, a = Act.layerAdded kind uuid ∧ x = getVectorMaskLayerId uuid.
Proof.
  assert (∀ layerId body, (∀ l, layer_id (body l) = layer_id l) →
            x ∈ layer_id <$> layers (with_layer layerId body (present st)) →
            x ∈ layer_id <$> layers (present st)) as Hwith.
  { intros layerId body Hb. by destruct (with_layer_ids layerId body (present st) Hb) as [_ ->]. }
  assert (∀ f, (∀ l, layer_id (f l) = layer_id l) →
            x ∈ layer_id <$> (f <$> layers (present st)) →
            x ∈ layer_id <$> layers (present st)) as Hmap.
  { intros f Hf. rewrite <- list_fmap_compose.
    assert (layer_id ∘ f <$> layers (present st) = layer_id <$> layers (present st)) as ->;
      [|done].
    apply list_fmap_ext. intros ? l _. apply Hf. }
  intros Hmove. destruct a; simpl; try discriminate Hmove;
    try (by left);
    try (by intros H; left; eapply Hwith; [|exact H]; intros l; simpl; repeat case_match);
    try (by intros H; left; eapply Hmap; [|exact H]);
    try (by intros H%elem_of_nil).
  - unfold layerAdded. destruct (String.eqb kind "vector_mask_layer"); [|by left].
    destruct (LayerColors.next _ _) as [i' [color|]]; [|by left]. simpl.
    rewrite fmap_app, elem_of_app. simpl. rewrite list_elem_of_singleton.
    intros [H| ->]; [by left|right; by eexists _, _].
  - unfold layerSelected. destruct (findIndex _ _) as [i|]; [|by left].
    destruct (layers (present st) !! i); by left.
  - intros H. left. eapply elem_of_sublist; [exact H|]. apply fmap_sublist, sublist_filter.
  - unfold maskLayerRectAdded. destruct (_ || _); [by left|].
    intros H. left. by eapply Hwith; [|exact H].
Qed.

Lemma run_NoDup_ids acts st :
  Forall (λ a, isMove a = false) acts →
  NoDup (layer_id <$> layers (present st)) →
  NoDup (addedUuids acts) →
  (∀ u, u ∈ addedUuids acts → getVectorMaskLayerId u ∉ layer_id <$> layers (present st)) →
  NoDup (layer_id <$> layers (present (run acts st))).
Proof.
  intros Hmoves. revert st.
  induction Hmoves as [|a acts Hmove _ IH]; intros st Hnd Hu Hfresh; [done|].
  cbn [run foldl]. apply IH.
  - apply reduce_NoDup_ids; [done..|]. intros kind uuid ->. apply Hfresh.
    simpl. apply list_elem_of_here.
  - unfold addedUuids in *. simpl in Hu. destruct a; try done.
    by apply NoDup_cons in Hu as [_ ?].
  - intros u Hin Hx.
    apply reduce_ids_from in Hx as [Hx|(kind & uuid & -> & Heq)]; [| |done].
    + apply (Hfresh u); [|done]. unfold addedUuids in *. simpl.
      destruct a; try done. by apply list_elem_of_further.
    + apply getVectorMaskLayerId_inj in Heq as ->.
      unfold addedUuids in *. simpl in Hu. by apply NoDup_cons in Hu as [? _].
Qed.

(** X13: starting from the initial state, whatever actions but moves are
    dispatched, the layers have pairwise distinct ids as long as the
    add-layer actions carry pairwise distinct uuids. (The four moves hand
    the list to [common/util/arrayUtils] and are left out.) *)
Theorem run_keeps_ids_distinct (acts : list Act.t) :
  Forall (λ a, isMove a = false) acts →
  NoDup (addedUuids acts) →
  NoDup (layer_id <$> layers (present (run acts initialStore))).
Proof.
  intros Hmoves Hu. apply run_NoDup_ids; [done|apply NoDup_nil_2|done|].
  intros u _. apply not_elem_of_nil.
Qed.

(** X13, adding two layers, deleting the first and adding a third. *)
Lemma run_keeps_ids_distinct_witness :
  NoDup (layer_id <$> layers (present (run
    [ Act.layerAdded "vector_mask_layer" "1";
      Act.layerAdded "vector_mask_layer" "2";
      Act.layerDeleted "vector_mask_layer_1";
      Act.layerAdded "vector_mask_layer" "3" ] initialStore))).
Proof.
  apply (run_keeps_ids_distinct
           [ Act.layerAdded "vector_mask_layer" "1";
             Act.layerAdded "vector_mask_layer" "2";
             Act.layerDeleted "vector_mask_layer_1";
             Act.layerAdded "vector_mask_layer" "3" ]).
  - by repeat constructor.
  - apply (bool_decide_unpack _). by vm_compute.
Defined.

(** ** Undo grouping: groupBy and filter together *)

(** X14: an action that [groupBy] puts in a group, whatever the group of
    the history, is an action that [filter] lets through: the bbox changes
    and the actions of other slices, which the filter rejects, never get a
    group. *)
Theorem groupBy_grouped_passes_filter (a : Act.t) (g : option string) :
  Undo.groupBy a g ≠ None → Undo.filter a = true.
Proof.
  intros Hg. destruct a; try reflexivity; exfalso; apply Hg; reflexivity.
Qed.

(** X14, on a translation. *)
Lemma groupBy_grouped_passes_filter_witness :
  Undo.filter (Act.layerTranslated "a" 1 1) = true.
Proof.
  apply (groupBy_grouped_passes_filter (Act.layerTranslated "a" 1 1) (Some Undo.LINE_1)).
  vm_compute. discriminate.
Defined.

(** X15: the stroke tokens are handed out by add-line and kept by
    append-point only. To any other action [groupBy] answers a group that
    is no stroke token (the action's own type, or null), whatever the group
    of the history; and to an append-point [groupBy] answers null when the
    group of the history is such an answer. *)
Theorem groupBy_stroke_tokens_only_for_strokes (a p : Act.t) (g : option string) :
  Undo.is_maskLayerLineAdded a = false →
  Undo.is_maskLayerPointsAdded a = false →
  Undo.is_maskLayerPointsAdded p = true →
  Undo.groupBy a g ≠ Some Undo.LINE_1
  ∧ Undo.groupBy a g ≠ Some Undo.LINE_2
  ∧ Undo.groupBy p (Undo.groupBy a g) = None.
Proof.
  intros Hline Hpoints Hp.
  destruct p; try discriminate Hp.
  destruct a; try discriminate Hline; try discriminate Hpoints;
    (split_and!; [by vm_compute|by vm_compute|reflexivity]).
Qed.

(** X15, a translation after the first stroke token. *)
Lemma groupBy_stroke_tokens_only_for_strokes_witness :
  Undo.groupBy (Act.layerTranslated "a" 1 1) (Some Undo.LINE_1) ≠ Some Undo.LINE_1
  ∧ Undo.groupBy (Act.layerTranslated "a" 1 1) (Some Undo.LINE_1) ≠ Some Undo.LINE_2
  ∧ Undo.groupBy (Act.maskLayerPointsAdded "a" 2 2)
      (Undo.groupBy (Act.layerTranslated "a" 1 1) (Some Undo.LINE_1)) = None.
Proof.
  apply (groupBy_stroke_tokens_only_for_strokes (Act.layerTranslated "a" 1 1)
           (Act.maskLayerPointsAdded "a" 2 2) (Some Undo.LINE_1)); reflexivity.
Defined.

(** ** The splicer: the collectors *)

Lemma reroute_source K d e : source (reroute K d e) = source e.
Proof. unfold reroute, retarget. by repeat case_match. Qed.

(** X16: whatever fed the denoiser's conditioning inputs before (nothing,
    one edge, several), after the collectors are set up each of the two
    inputs has exactly one edge, from its collector; the old edges keep
    their place and their source, two edges are added, and nothing is
    uploaded. *)
Theorem addCollectors_denoiser_inputs (K : GraphConstants) (d : string) (st : Splice) :
  ∃ st',
    addCollectors K d st = Some (Normal tt, st')
    ∧ edges_into (graph st') d "positive_conditioning"
      = [mkEdge (mkEnd (POSITIVE_CONDITIONING_COLLECT K) "collection")
           (mkEnd d "positive_conditioning")]
    ∧ edges_into (graph st') d "negative_conditioning"
      = [mkEdge (mkEnd (NEGATIVE_CONDITIONING_COLLECT K) "collection")
           (mkEnd d "negative_conditioning")]
    ∧ source <$> edges (graph st')
      = (source <$> edges (graph st))
        ++ [ mkEnd (POSITIVE_CONDITIONING_COLLECT K) "collection";
             mkEnd (NEGATIVE_CONDITIONING_COLLECT K) "collection" ]
    ∧ nodes (graph st') !! NEGATIVE_CONDITIONING_COLLECT K
      = Some (CollectInvocation (NEGATIVE_CONDITIONING_COLLECT K))
    ∧ uploads st' = uploads st.
Proof.
  exists (collectorsAdded K d st). split; [apply addCollectors_run|].
  unfold collectorsAdded, edges_into, with_edges, with_node. cbn [graph edges nodes uploads].
  rewrite !List.filter_app, filter_reroute_positive, filter_reroute_negative.
  split_and!.
  - cbn [List.filter]. unfold ends_in. simpl. by rewrite !String.eqb_refl.
  - cbn [List.filter]. unfold ends_in. simpl. by rewrite !String.eqb_refl.
  - rewrite fmap_app, <- list_fmap_compose. f_equal.
    apply list_fmap_ext. intros ? e _. apply reroute_source.
  - apply lookup_insert_eq.
  - done.
Qed.

Lemma reroute_into_positive K d src :
  reroute K d (mkEdge src (mkEnd d "positive_conditioning"))
  = mkEdge src (mkEnd (POSITIVE_CONDITIONING_COLLECT K) "item").
Proof. unfold reroute, retarget. simpl. by rewrite String.eqb_refl. Qed.

Lemma reroute_into_negative K d src :
  reroute K d (mkEdge src (mkEnd d "negative_conditioning"))
  = mkEdge src (mkEnd (NEGATIVE_CONDITIONING_COLLECT K) "item").
Proof. unfold reroute, retarget. simpl. rewrite String.eqb_refl. by simpl. Qed.

(** X17: the set-up is not idempotent: run a second time on its own
    result, it re-routes the edges from the collectors to the denoiser into
    the collectors themselves, so that each collector feeds its own [item]
    input. *)
Theorem addCollectors_twice_self_loops (K : GraphConstants) (d : string) (st : Splice) :
  ∃ st'',
    bind (addCollectors K d) (λ _, addCollectors K d) st = Some (Normal tt, st'')
    ∧ mkEdge (mkEnd (POSITIVE_CONDITIONING_COLLECT K) "collection")
        (mkEnd (POSITIVE_CONDITIONING_COLLECT K) "item") ∈ edges (graph st'')
    ∧ mkEdge (mkEnd (NEGATIVE_CONDITIONING_COLLECT K) "collection")
        (mkEnd (NEGATIVE_CONDITIONING_COLLECT K) "item") ∈ edges (graph st'').
Proof.
  exists (collectorsAdded K d (collectorsAdded K d st)). split.
  { unfold bind. by rewrite !addCollectors_run. }
  unfold collectorsAdded, with_edges, with_node. cbn [graph edges].
  rewrite !fmap_app, !fmap_cons, reroute_into_positive, reroute_into_negative.
  split; rewrite !elem_of_app, !elem_of_cons; [left; right; by left|left; right; right; by left].
Qed.

(** ** The splicer: passes that stop early *)

(** X18: with the flag on and no layer that qualifies (none visible with a
    prompt) the pass still sets up the collectors and re-routes the
    denoiser's conditioning inputs through them; it adds nothing else and
    uploads nothing. *)
Theorem addRegionalPromptsToGraph_no_layers
    (K : GraphConstants) (env : Env) (fuel : nat) (state : RootState)
    (d : string) (st : Splice) :
  isEnabled (regionalPrompts_present state) = true →
  filteredLayers state = [] →
  size (getRegionalPromptLayerBlobs env []) = 0 →
  addRegionalPromptsToGraph K env fuel state d st = addCollectors K d st
  ∧ addRegionalPromptsToGraph K env fuel state d st
    = Some (Normal tt, collectorsAdded K d st)
  ∧ uploads (collectorsAdded K d st) = uploads st
  ∧ nodes (graph (collectorsAdded K d st))
    = <[NEGATIVE_CONDITIONING_COLLECT K :=
          CollectInvocation (NEGATIVE_CONDITIONING_COLLECT K)]>
        (<[POSITIVE_CONDITIONING_COLLECT K :=
             CollectInvocation (POSITIVE_CONDITIONING_COLLECT K)]> (nodes (graph st))).
Proof.
  intros Hen Hnone Hsize.
  assert (addRegionalPromptsToGraph K env fuel state d st = addCollectors K d st) as Heq.
  { unfold addRegionalPromptsToGraph. rewrite Hen, Hnone. simpl. rewrite Hsize. simpl.
    unfold mbind, M_bind, assert. unfold bind at 1, ret at 1. unfold bind.
    by destruct (addCollectors K d st) as [[[[]|] ?]|]. }
  split_and!; [done| |done|done]. rewrite Heq. apply addCollectors_run.
Qed.

(** X18, with one layer that is not visible. *)
Lemma addRegionalPromptsToGraph_no_layers_witness :
  addRegionalPromptsToGraph Ex.K Ex.env 0
    (Ex.rootOf true [set_layer_isVisible false (Ex.promptLayer "a" invert)])
    Ex.denoise Ex.start
  = Some (Normal tt, collectorsAdded Ex.K Ex.denoise Ex.start).
Proof.
  apply (addRegionalPromptsToGraph_no_layers Ex.K Ex.env 0
           (Ex.rootOf true [set_layer_isVisible false (Ex.promptLayer "a" invert)])
           Ex.denoise Ex.start).
  - reflexivity.
  - reflexivity.
  - reflexivity.
Defined.

(** X19: when the upload of the first filtered layer fails, the pass
    throws the upload error; the collectors are set up and the upload is on
    record, and nothing was added for the layer, the mask node included; the
    layers after it are not looked at. *)
Theorem addRegionalPromptsToGraph_first_upload_fails
    (K : GraphConstants) (env : Env) (fuel : nat) (state : RootState)
    (d : string) (st : Splice) (layer : Layer) (rest : list Layer) (blob : Blob) :
  isEnabled (regionalPrompts_present state) = true →
  filteredLayers state = layer :: rest →
  let blobs := getRegionalPromptLayerBlobs env (layer_id <$> layer :: rest) in
  size blobs = length (layer :: rest) →
  blobs !! layer_id layer = Some blob →
  uploadImage env (uploads st) (maskFile (layer_id layer) blob) = None →
  addRegionalPromptsToGraph K env fuel state d st
  = Some (Throw (UploadError (maskFile (layer_id layer) blob)),
          uploaded (maskFile (layer_id layer) blob) (collectorsAdded K d st)).
Proof.
  intros Hen Hlayers blobs Hsize Hblob Hup. subst blobs.
  unfold addRegionalPromptsToGraph. rewrite Hen, Hlayers. cbn [negb]. cbv zeta.
  rewrite length_fmap, Hsize, Nat.eqb_refl.
  unfold mbind, M_bind, assert. unfold bind at 1, ret at 1.
  unfold bind at 1. rewrite addCollectors_run.
  cbn [for_of]. unfold bind at 1. unfold addLayer. rewrite Hblob.
  unfold mbind, M_bind. unfold bind at 1. unfold upload.
  cbn [uploads collectorsAdded with_edges with_node]. by rewrite Hup.
Qed.

(** X19, two layers and an upload endpoint that always fails. *)
Lemma addRegionalPromptsToGraph_first_upload_fails_witness :
  addRegionalPromptsToGraph Ex.K Ex.envOffline 100
    (Ex.rootOf true [Ex.promptLayer "a" off; Ex.promptLayer "b" invert])
    Ex.denoise Ex.start
  = Some (Throw (UploadError (maskFile "a" [])),
          uploaded (maskFile "a" []) (collectorsAdded Ex.K Ex.denoise Ex.start)).
Proof.
  apply (addRegionalPromptsToGraph_first_upload_fails Ex.K Ex.envOffline 100
           (Ex.rootOf true [Ex.promptLayer "a" off; Ex.promptLayer "b" invert])
           Ex.denoise Ex.start (Ex.promptLayer "a" off) [Ex.promptLayer "b" invert] []).
  - reflexivity.
  - reflexivity.
  - reflexivity.
  - reflexivity.
  - reflexivity.
Defined.

(** X20: the auto-negative setting only matters for a layer with a
    positive prompt: for a layer whose positive prompt is empty or absent,
    the loop body does the same with "invert" as with "off". *)
Theorem addLayer_invert_needs_positive_prompt
    (K : GraphConstants) (env : Env) (fuel : nat) (isSDXL : bool)
    (blobs : gmap string Blob) (layer : Layer) (an : ParameterAutoNegative)
    (st : Splice) :
  (∀ t, layer_textPrompt layer = Some t → positive t = "") →
  addLayer K env fuel isSDXL blobs (set_layer_autoNegative an layer) st
  = addLayer K env fuel isSDXL blobs layer st.
Proof.
  intros Hpos. unfold addLayer.
  cbn [layer_id layer_textPrompt layer_autoNegative set_layer_autoNegative].
  destruct (blobs !! layer_id layer) as [blob|]; [|done].
  destruct (layer_textPrompt layer) as [[pos neg]|] eqn:Ht.
  - specialize (Hpos _ eq_refl). simpl in Hpos. subst pos. simpl.
    by destruct an, (layer_autoNegative layer).
  - simpl. by destruct an, (layer_autoNegative layer).
Qed.

(** X20, a layer with a negative prompt only, on the graph with the
    collectors set up. *)
Lemma addLayer_invert_needs_positive_prompt_witness :
  addLayer Ex.K Ex.env 100 false {[ "a" := [] ]} (Ex.negativeLayer "a" invert)
    (collectorsAdded Ex.K Ex.denoise Ex.start)
  = addLayer Ex.K Ex.env 100 false {[ "a" := [] ]} (Ex.negativeLayer "a" off)
      (collectorsAdded Ex.K Ex.denoise Ex.start).
Proof.
  apply (addLayer_invert_needs_positive_prompt Ex.K Ex.env 100 false {[ "a" := [] ]}
           (Ex.negativeLayer "a" off) invert (collectorsAdded Ex.K Ex.denoise Ex.start)).
  intros t [= <-]. reflexivity.
Defined.

(** ** The splicer: what a pass never does *)

Section Ensures.
Variable R : Splice → Splice → Prop.
Hypothesis R_refl : ∀ st, R st st.
Hypothesis R_trans : ∀ a b c, R a b → R b c → R a c.
Hypothesis R_node : ∀ id n st, R st (with_node id n st).
Hypothesis R_push : ∀ e st, R st (with_edges (edges (graph st) ++ [e]) st).

Lemma ensures_ret {A} (x : A) : ensures (ret x) (λ st _ st', R st st').
Proof. intros st c st' [= <- <-]. apply R_refl. Qed.

Lemma ensures_throw {A} e : ensures (@throw A e) (λ st _ st', R st st').
Proof. intros st c st' [= <- <-]. apply R_refl. Qed.

Lemma ensures_bind {A B} (m : M A) (k : A → M B) :
  ensures m (λ st _ st', R st st') →
  (∀ x, ensures (k x) (λ st _ st', R st st')) →
  ensures (bind m k) (λ st _ st', R st st').
Proof.
  intros Hm Hk st c st' Hrun. unfold bind in Hrun.
  destruct (m st) as [[[x|e] st1]|] eqn:Hmst; [| |done].
  - eapply R_trans; [by eapply Hm|by eapply Hk].
  - injection Hrun as <- <-. by eapply Hm.
Qed.

Lemma ensures_set_node id n : ensures (set_node id n) (λ st _ st', R st st').
Proof. intros st c st' [= <- <-]. apply R_node. Qed.

Lemma ensures_push_edge e : ensures (push_edge e) (λ st _ st', R st st').
Proof. intros st c st' [= <- <-]. apply R_push. Qed.

Lemma ensures_copy_connection g r e :
  ensures (copy_connection g r e) (λ st _ st', R st st').
Proof.
  unfold copy_connection. destruct (feeds g e);
    [apply ensures_push_edge|apply ensures_ret].
Qed.

Lemma ensures_for_of_edges fuel i (body : Edge → M unit) :
  (∀ e, ensures (body e) (λ st _ st', R st st')) →
  ensures (for_of_edges fuel i body) (λ st _ st', R st st').
Proof.
  intros Hbody. revert i. induction fuel as [|fuel IH]; intros i st c st' Hrun; [done|].
  simpl in Hrun. destruct (edges (graph st) !! i) as [e|].
  - revert Hrun. apply ensures_bind; [apply Hbody|intros _; apply IH].
  - injection Hrun as <- <-. apply R_refl.
Qed.

Lemma ensures_for_of {A} (l : list A) (body : A → M unit) :
  (∀ x, ensures (body x) (λ st _ st', R st st')) →
  ensures (for_of l body) (λ st _ st', R st st').
Proof.
  intros Hbody. induction l as [|x l IH]; simpl; [apply ensures_ret|].
  apply ensures_bind; [apply Hbody|intros _; apply IH].
Qed.

(** The part of the loop body that follows the upload. *)
Lemma ensures_after_upload K fuel isSDXL layer image_name :
  ensures
    (let maskToTensorId := maskToTensorId K (layer_id layer) in
     set_node maskToTensorId (AlphaMaskToTensorInvocation maskToTensorId image_name);;
     (match positive <$> layer_textPrompt layer with
      | Some prompt =>
          if truthy prompt then
            let id := positiveCondId K (layer_id layer) in
            set_node id (condNode isSDXL id prompt);;
            push_edge (mkEdge (mkEnd maskToTensorId "mask") (mkEnd id "mask"));;
            push_edge (mkEdge (mkEnd id "conditioning")
                         (mkEnd (POSITIVE_CONDITIONING_COLLECT K) "item"));;
            for_of_edges fuel 0 (copy_connection (POSITIVE_CONDITIONING K) id)
          else ret tt
      | None => ret tt
      end);;
     (match negative <$> layer_textPrompt layer with
      | Some prompt =>
          if truthy prompt then
            let id := negativeCondId K (layer_id layer) in
            set_node id (condNode isSDXL id prompt);;
            push_edge (mkEdge (mkEnd maskToTensorId "mask") (mkEnd id "mask"));;
            push_edge (mkEdge (mkEnd id "conditioning")
                         (mkEnd (NEGATIVE_CONDITIONING_COLLECT K) "item"));;
            for_of_edges fuel 0 (copy_connection (NEGATIVE_CONDITIONING K) id)
          else ret tt
      | None => ret tt
      end);;
     (match layer_autoNegative layer, positive <$> layer_textPrompt layer with
      | invert, Some prompt =>
          if truthy prompt then
            let invertId := invertTensorMaskId K (layer_id layer) in
            set_node invertId (InvertTensorMaskInvocation invertId);;
            push_edge (mkEdge (mkEnd maskToTensorId "mask") (mkEnd invertId "mask"));;
            let id := positiveCondInvertedId K (layer_id layer) in
            set_node id (condNode isSDXL id prompt);;
            push_edge (mkEdge (mkEnd invertId "mask") (mkEnd id "mask"));;
            push_edge (mkEdge (mkEnd id "conditioning")
                         (mkEnd (NEGATIVE_CONDITIONING_COLLECT K) "item"));;
            for_of_edges fuel 0 (copy_connection (POSITIVE_CONDITIONING K) id)
          else ret tt
      | _, _ => ret tt
      end))
    (λ st _ st', R st st').
Proof.
  cbv zeta. unfold mbind, M_bind.
  repeat first
    [ apply ensures_ret
    | apply ensures_set_node
    | apply ensures_push_edge
    | apply ensures_for_of_edges; intros ?; apply ensures_copy_connection
    | apply ensures_bind; [|intros _]
    | case_match ].
Qed.
End Ensures.

Lemma grows_refl st : grows st st.
Proof.
  unfold grows. split_and!; [done|exists []|exists []]; by rewrite (right_id_L [] (++)).
Qed.

Lemma grows_trans a b c : grows a b → grows b c → grows a c.
Proof.
  intros (Hn1 & [m1 He1] & [u1 Hu1]) (Hn2 & [m2 He2] & [u2 Hu2]).
  unfold grows. split_and!.
  - by etrans.
  - exists (m1 ++ m2). by rewrite He2, He1, (assoc_L (++)).
  - exists (u1 ++ u2). by rewrite Hu2, Hu1, (assoc_L (++)).
Qed.

Lemma grows_with_node id n st : grows st (with_node id n st).
Proof.
  unfold grows, with_node. simpl. split_and!.
  - apply dom_insert_subseteq.
  - exists []. by rewrite (right_id_L [] (++)).
  - exists []. by rewrite (right_id_L [] (++)).
Qed.

Lemma grows_push e st : grows st (with_edges (edges (graph st) ++ [e]) st).
Proof.
  unfold grows, with_edges. simpl. split_and!.
  - done.
  - exists [source e]. by rewrite fmap_app.
  - exists []. by rewrite (right_id_L [] (++)).
Qed.

Lemma grows_uploaded file st : grows st (uploaded file st).
Proof.
  unfold grows, uploaded. simpl. split_and!; [done|exists []|by exists [file]].
  by rewrite (right_id_L [] (++)).
Qed.

Lemma grows_collectorsAdded K d st : grows st (collectorsAdded K d st).
Proof.
  unfold grows, collectorsAdded, with_edges, with_node. simpl. split_and!.
  - etrans; [apply dom_insert_subseteq|].
    etrans; [|apply dom_insert_subseteq]. done.
  - eexists. rewrite fmap_app, <- list_fmap_compose.
    f_equal. apply list_fmap_ext. intros ? e _. apply reroute_source.
  - exists []. by rewrite (right_id_L [] (++)).
Qed.

Lemma addLayer_grows K env fuel isSDXL (blobs : gmap string Blob) layer :
  ensures (addLayer K env fuel isSDXL blobs layer) (λ st _ st', grows st st').
Proof.
  unfold addLayer. destruct (blobs !! layer_id layer) as [blob|];
    [|apply ensures_throw, grows_refl].
  unfold mbind at 1, M_bind at 1.
  apply (ensures_bind grows grows_trans).
  - intros st c st' Hrun. unfold upload in Hrun.
    destruct (uploadImage env _ _); injection Hrun as <- <-; apply grows_uploaded.
  - intros image_name.
    apply (ensures_after_upload grows grows_refl grows_trans grows_with_node grows_push).
Qed.

Lemma addRegionalPromptsToGraph_grows K env fuel state d :
  ensures (addRegionalPromptsToGraph K env fuel state d) (λ st _ st', grows st st').
Proof.
  unfold addRegionalPromptsToGraph.
  destruct (negb _); [apply ensures_ret, grows_refl|]. cbv zeta.
  unfold mbind, M_bind.
  apply (ensures_bind grows grows_trans).
  { unfold assert. destruct (_ =? _);
      [apply ensures_ret|apply ensures_throw]; apply grows_refl. }
  intros _. apply (ensures_bind grows grows_trans).
  { intros st c st' Hrun. rewrite addCollectors_run in Hrun.
    injection Hrun as <- <-. apply grows_collectorsAdded. }
  intros _. apply (ensures_for_of grows grows_refl grows_trans).
  intros layer. apply addLayer_grows.
Qed.

(** X21: however a pass ends, normally or with a thrown error, no node of
    the graph has been removed; the edges that were there are still there,
    in place and with their source (only the destination of an edge into
    the denoiser may have been re-routed), the new edges coming after them;
    and the uploads started before are still on record, new ones after
    them. *)
Theorem addRegionalPromptsToGraph_only_grows
    (K : GraphConstants) (env : Env) (fuel : nat) (state : RootState) (d : string)
    (st : Splice) (c : Completion unit) (st' : Splice) :
  addRegionalPromptsToGraph K env fuel state d st = Some (c, st') →
  dom (nodes (graph st)) ⊆ dom (nodes (graph st'))
  ∧ (∃ more, source <$> edges (graph st') = (source <$> edges (graph st)) ++ more)
  ∧ (∃ more, uploads st' = uploads st ++ more).
Proof. apply addRegionalPromptsToGraph_grows. Qed.

(** X21, on the pass that stops at the missing blob of layer b. *)
Lemma addRegionalPromptsToGraph_only_grows_witness :
  ∃ c st',
    addRegionalPromptsToGraph Ex.K Ex.envMissingB 100
      (Ex.rootOf true [Ex.promptLayer "a" off; Ex.promptLayer "b" off])
      Ex.denoise Ex.start = Some (c, st')
    ∧ dom (nodes (graph Ex.start)) ⊆ dom (nodes (graph st')).
Proof.
  eexists _, _. split; [vm_compute; reflexivity|].
  eapply (addRegionalPromptsToGraph_only_grows Ex.K Ex.envMissingB 100
            (Ex.rootOf true [Ex.promptLayer "a" off; Ex.promptLayer "b" off])
            Ex.denoise Ex.start).
  vm_compute. reflexivity.
Defined.

(** ** The splicer: uploads *)

Lemma maskFiles_cons blobs l ls :
  maskFiles blobs (l :: ls) = maskFiles blobs [l] ++ maskFiles blobs ls.
Proof. unfold maskFiles. simpl. by destruct (blobs !! layer_id l). Qed.

(** The loop body starts the upload of the layer's mask, if the layer has
    a blob, and no other upload. *)
Lemma addLayer_uploads K env fuel isSDXL (blobs : gmap string Blob) layer :
  ensures (addLayer K env fuel isSDXL blobs layer)
    (λ st _ st', uploads st' = uploads st ++ maskFiles blobs [layer]).
Proof.
  unfold addLayer, maskFiles. simpl.
  destruct (blobs !! layer_id layer) as [blob|]; simpl.
  - intros st c st' Hrun. unfold mbind at 1, M_bind at 1 in Hrun.
    unfold bind at 1 in Hrun. unfold upload in Hrun.
    destruct (uploadImage env _ _) as [image_name|]; [|by injection Hrun as <- <-].
    apply (ensures_after_upload (λ st st', uploads st' = uploads st)) in Hrun;
      [by rewrite Hrun|done|congruence|done|done].
  - intros st c st' [= <- <-]. by rewrite (right_id_L [] (++)).
Qed.

Lemma for_of_addLayer_uploads K env fuel isSDXL (blobs : gmap string Blob) ls :
  ensures (for_of ls (addLayer K env fuel isSDXL blobs))
    (λ st c st',
       ∃ n, n ≤ length ls
            ∧ uploads st' = uploads st ++ maskFiles blobs (take n ls)
            ∧ (c = Normal tt → n = length ls)).
Proof.
  induction ls as [|l ls IH]; intros st c st' Hrun.
  - injection Hrun as <- <-. exists 0. split_and!; [done| |done].
    unfold maskFiles. simpl. by rewrite app_nil_r.
  - cbn [for_of] in Hrun. unfold bind in Hrun.
    destruct (addLayer K env fuel isSDXL blobs l st) as [[[[]|e] st1]|] eqn:Hl; [| |done].
    + apply addLayer_uploads in Hl. apply IH in Hrun as (n & Hn & Hup & Hall).
      exists (S n). cbn [take length]. rewrite maskFiles_cons.
      split_and!; [lia|by rewrite Hup, Hl, (assoc_L (++))|]. intros Hc. by rewrite Hall.
    + injection Hrun as <- <-. apply addLayer_uploads in Hl.
      exists 1. cbn [take length]. rewrite take_0. split_and!; [lia|done|done].
Qed.

Lemma addRegionalPromptsToGraph_uploads_prefix K env fuel state d st c st' :
  isEnabled (regionalPrompts_present state) = true →
  addRegionalPromptsToGraph K env fuel state d st = Some (c, st') →
  ∃ n, n ≤ length (filteredLayers state)
       ∧ uploads st'
         = uploads st
           ++ maskFiles (getRegionalPromptLayerBlobs env (layer_id <$> filteredLayers state))
                (take n (filteredLayers state))
       ∧ (c = Normal tt → n = length (filteredLayers state)).
Proof.
  intros Hen Hrun. unfold addRegionalPromptsToGraph in Hrun.
  rewrite Hen in Hrun. cbn [negb] in Hrun. cbv zeta in Hrun.
  unfold mbind, M_bind, assert in Hrun. unfold bind at 1 in Hrun.
  destruct (size _ =? length _).
  - unfold ret in Hrun. unfold bind at 1 in Hrun. rewrite addCollectors_run in Hrun.
    apply for_of_addLayer_uploads in Hrun. exact Hrun.
  - unfold throw in Hrun. injection Hrun as <- <-.
    exists 0. rewrite take_0. split_and!; [lia| |done].
    unfold maskFiles. simpl. by rewrite app_nil_r.
Qed.

Lemma maskFiles_processable K env blobs ls :
  Forall (processable K env blobs) ls → length (maskFiles blobs ls) = length ls.
Proof.
  induction 1 as [|l ls Hl _ IH]; [done|].
  rewrite maskFiles_cons, length_app, IH.
  destruct Hl as ((blob & Hblob & _) & _). unfold maskFiles. simpl. by rewrite Hblob.
Qed.

Lemma addRegionalPromptsToGraph_uploads_all K env fuel state d st st' :
  isEnabled (regionalPrompts_present state) = true →
  addRegionalPromptsToGraph K env fuel state d st = Some (Normal tt, st') →
  Forall (processable K env
            (getRegionalPromptLayerBlobs env (layer_id <$> filteredLayers state)))
    (filteredLayers state) →
  uploads st'
  = uploads st
    ++ maskFiles (getRegionalPromptLayerBlobs env (layer_id <$> filteredLayers state))
         (filteredLayers state)
  ∧ length (maskFiles (getRegionalPromptLayerBlobs env (layer_id <$> filteredLayers state))
              (filteredLayers state))
    = length (filteredLayers state).
Proof.
  intros Hen Hrun Hall.
  destruct (addRegionalPromptsToGraph_uploads_prefix _ _ _ _ _ _ _ _ Hen Hrun)
    as (n & Hn & Hup & Hfull).
  rewrite (Hfull eq_refl), firstn_all in Hup. split; [done|].
  by eapply maskFiles_processable.
Qed.

(** X22: the uploads of a pass are the mask files of the filtered layers
    it got to, in the order of the layers, one per layer, named after the
    layer and carrying its blob; when the pass ends normally it got to all
    of them, and after the first failure nothing more is uploaded. *)
Theorem addRegionalPromptsToGraph_uploads_in_order
    (K : GraphConstants) (env : Env) (fuel : nat) (state : RootState) (d : string)
    (st : Splice) (c : Completion unit) (st' : Splice) :
  isEnabled (regionalPrompts_present state) = true →
  addRegionalPromptsToGraph K env fuel state d st = Some (c, st') →
  let layers := filteredLayers state in
  let blobs := getRegionalPromptLayerBlobs env (layer_id <$> layers) in
  ∃ n, n ≤ length layers
       ∧ uploads st' = uploads st ++ maskFiles blobs (take n layers)
       ∧ (c = Normal tt → n = length layers).
Proof.
  intros Hen Hrun. cbv zeta.
  by apply (addRegionalPromptsToGraph_uploads_prefix K env fuel state d st c st').
Qed.

(** X22, on the pass that stops at the missing blob of layer b. *)
Lemma addRegionalPromptsToGraph_uploads_in_order_witness :
  ∃ c st',
    addRegionalPromptsToGraph Ex.K Ex.envMissingB 100
      (Ex.rootOf true [Ex.promptLayer "a" off; Ex.promptLayer "b" off])
      Ex.denoise Ex.start = Some (c, st')
    ∧ ∃ n, n ≤ 2
           ∧ uploads st'
             = [] ++ maskFiles (list_to_map [("a", []); ("stray", [])])
                       (take n [Ex.promptLayer "a" off; Ex.promptLayer "b" off])
           ∧ (c = Normal tt → n = 2).
Proof.
  eexists _, _. split; [vm_compute; reflexivity|].
  eapply (addRegionalPromptsToGraph_uploads_in_order Ex.K Ex.envMissingB 100
            (Ex.rootOf true [Ex.promptLayer "a" off; Ex.promptLayer "b" off])
            Ex.denoise Ex.start).
  - reflexivity.
  - vm_compute. reflexivity.
Defined.

(** X23: when every filtered layer has its blob (and the mapping has the
    right size), every upload succeeds and no conditioning node of a layer
    takes the id of a global conditioning node, the pass ends normally,
    given fuel for the copying loops, and has started the upload of every
    layer's mask, in the order of the layers. *)
Theorem addRegionalPromptsToGraph_succeeds
    (K : GraphConstants) (env : Env) (fuel : nat) (state : RootState) (d : string)
    (st : Splice) :
  isEnabled (regionalPrompts_present state) = true →
  let layers := filteredLayers state in
  let blobs := getRegionalPromptLayerBlobs env (layer_id <$> layers) in
  size blobs = length layers →
  Forall (processable K env blobs) layers →
  edgesAfter (length layers) (length (edges (graph st)) + 2) < fuel →
  ∃ st',
    addRegionalPromptsToGraph K env fuel state d st = Some (Normal tt, st')
    ∧ uploads st' = uploads st ++ maskFiles blobs layers
    ∧ length (maskFiles blobs layers) = length layers.
Proof.
  intros Hen layers blobs Hsize Hall Hfuel.
  destruct (completes_bind _ _ _ _ _
              (addCollectors_completes K d (length (edges (graph st))))
              (λ _, for_of_addLayer_completes K env fuel
                      (bool_decide (generation_model_base state = Some "sdxl"))
                      blobs layers Hall (length (edges (graph st)) + 2) Hfuel)
              st (le_n _)) as ([] & st' & Hrun & _).
  assert (addRegionalPromptsToGraph K env fuel state d st = Some (Normal tt, st')) as Hpass.
  { unfold addRegionalPromptsToGraph. rewrite Hen. cbn [negb]. cbv zeta.
    fold layers. fold blobs. rewrite length_fmap, Hsize, Nat.eqb_refl.
    unfold mbind, M_bind, assert. unfold bind at 1, ret at 1. exact Hrun. }
  exists st'. split; [exact Hpass|].
  by apply (addRegionalPromptsToGraph_uploads_all K env fuel state d st st' Hen Hpass).
Qed.

(** X23, on two layers: a positive prompt, and a negative prompt with
    auto-negative [invert]. *)
Lemma addRegionalPromptsToGraph_succeeds_witness :
  ∃ st',
    addRegionalPromptsToGraph Ex.K Ex.env 1000
      (Ex.rootOf true [Ex.promptLayer "a" off; Ex.negativeLayer "b" invert])
      Ex.denoise Ex.start = Some (Normal tt, st')
    ∧ uploads st'
      = uploads Ex.start
        ++ maskFiles
             (getRegionalPromptLayerBlobs Ex.env
                (layer_id <$> filteredLayers
                   (Ex.rootOf true [Ex.promptLayer "a" off; Ex.negativeLayer "b" invert])))
             (filteredLayers
                (Ex.rootOf true [Ex.promptLayer "a" off; Ex.negativeLayer "b" invert]))
    ∧ length (maskFiles
                (getRegionalPromptLayerBlobs Ex.env
                   (layer_id <$> filteredLayers
                      (Ex.rootOf true [Ex.promptLayer "a" off; Ex.negativeLayer "b" invert])))
                (filteredLayers
                   (Ex.rootOf true [Ex.promptLayer "a" off; Ex.negativeLayer "b" invert])))
      = length (filteredLayers
                  (Ex.rootOf true [Ex.promptLayer "a" off; Ex.negativeLayer "b" invert])).
Proof.
  apply (addRegionalPromptsToGraph_succeeds Ex.K Ex.env 1000
           (Ex.rootOf true [Ex.promptLayer "a" off; Ex.negativeLayer "b" invert])
           Ex.denoise Ex.start).
  - reflexivity.
  - vm_compute. reflexivity.
  - repeat constructor; try (by vm_compute);
      (eexists; split; [vm_compute; reflexivity|intros log; by eexists]).
  - vm_compute. lia.
Defined.

(** ** The splicer: a copying loop that reads its own copies *)

Lemma feeds_copy_to_itself g e : feeds g e = true → feeds g (copy_to g e) = true.
Proof.
  unfold feeds, copy_to. simpl. intros [_ H]%andb_true_iff.
  by rewrite String.eqb_refl, H.
Qed.

(** A loop that copies the inputs of a node to that same node has, as soon
    as one such input lies ahead of the iterator, always one more ahead:
    no amount of fuel lets it end. *)
Lemma for_of_edges_copies_itself g fuel :
  ∀ i st,
    (∃ j e, i ≤ j ∧ edges (graph st) !! j = Some e ∧ feeds g e = true) →
    for_of_edges fuel i (copy_connection g g) st = None.
Proof.
  induction fuel as [|fuel IH]; intros i st (j & e & Hij & Hj & He); [done|].
  cbn [for_of_edges].
  destruct (edges (graph st) !! i) as [edge|] eqn:Hi.
  - unfold bind, copy_connection. destruct (feeds g edge) eqn:Hedge.
    + unfold push_edge. apply IH.
      exists (length (edges (graph st))), (copy_to g edge). split_and!.
      * apply lookup_lt_Some in Hi. lia.
      * destruct st as [[ns es] ups]. simpl.
        by rewrite lookup_app_r, Nat.sub_diag by done.
      * by apply feeds_copy_to_itself.
    + unfold ret. apply IH. exists j, e. split_and!; [|done..].
      destruct (decide (i = j)) as [->|]; [congruence|lia].
  - apply lookup_ge_None in Hi. apply lookup_lt_Some in Hj. lia.
Qed.

(** X24: the copying loops read the live edge list. If the regional
    positive conditioning node of a layer took the id of the global
    positive conditioning node, the mask edge just pushed would be an input
    of the global node, its copy again, and so on: the layer's pass never
    ends, whatever the fuel. *)
Theorem addLayer_id_collision_never_ends
    (K : GraphConstants) (env : Env) (isSDXL : bool) (blobs : gmap string Blob)
    (layer : Layer) (blob : Blob) (t : TextPrompt) (st : Splice) (fuel : nat) :
  blobs !! layer_id layer = Some blob →
  is_Some (uploadImage env (uploads st) (maskFile (layer_id layer) blob)) →
  layer_textPrompt layer = Some t →
  truthy (positive t) = true →
  positiveCondId K (layer_id layer) = POSITIVE_CONDITIONING K →
  addLayer K env fuel isSDXL blobs layer st = None.
Proof.
  intros Hblob [image_name Hup] Ht Hpos Hid.
  unfold addLayer. rewrite Hblob, Ht. cbn [fmap option_fmap option_map]. cbv zeta.
  rewrite Hpos, Hid.
  unfold mbind, M_bind. unfold bind at 1. unfold upload. rewrite Hup.
  unfold bind at 1. unfold set_node at 1.
  unfold bind at 1. unfold bind at 1. unfold bind at 1. unfold set_node at 1.
  unfold bind at 1. unfold push_edge at 1. unfold bind at 1. unfold push_edge at 1.
  rewrite for_of_edges_copies_itself; [done|].
  eexists (length (edges (graph st))), _. split_and!; [lia| |].
  - destruct st as [[ns es] ups]. simpl.
    rewrite <- (assoc_L (++)). by rewrite lookup_app_r, Nat.sub_diag by done.
  - unfold feeds. simpl. by rewrite String.eqb_refl.
Qed.

(** X24, with a prefix ["positive"] and a layer called ["conditioning"]. *)
Lemma addLayer_id_collision_never_ends_witness :
  addLayer Ex.Kcolliding Ex.env 1000 false (list_to_map [("conditioning", [])])
    (Ex.promptLayer "conditioning" off) Ex.start = None.
Proof.
  apply (addLayer_id_collision_never_ends Ex.Kcolliding Ex.env false
           (list_to_map [("conditioning", [])]) (Ex.promptLayer "conditioning" off)
           [] (mkTextPrompt "a cat" "") Ex.start 1000).
  - vm_compute. reflexivity.
  - by eexists.
  - reflexivity.
  - reflexivity.
  - vm_compute. reflexivity.
Defined.
